(** * apidGatewayConfDeploy: readiness queries, change distributor and
      long-poll handlers

    A shallow embedding of [data.go] (the SQL queries over
    [metadata_runtime_entity_metadata] and [apid_blob_available], and the
    reflection-based row mapper) and of [api.go] (the eTag counter, the
    subscriber loop and the two HTTP handlers), followed by the properties
    the specification states about them. *)

From Stdlib Require Import Ascii String ZArith.
From stdpp Require Import gmap strings list fin_maps pretty.

Open Scope string_scope.
Open Scope list_scope.
Open Scope nat_scope.

(** Go's [error] values are carried by their message; a Go result pair
    [(v, err)] is a pair whose second component is [None] for [nil]. *)
Definition error : Type := string.

(** * The SQL fragment used by data.go *)

Module Sql.

(** A column value: [None] is SQL NULL. All columns of the two tables
    hold text. *)
Definition value : Type := option string.

(** Three-valued truth: [None] is UNKNOWN. *)
Definition tv : Type := option bool.

Definition eq (x y : value) : tv :=
  match x, y with
  | Some a, Some b => Some (bool_decide (a = b))
  | _, _ => None
  end.

Definition not3 (p : tv) : tv := negb <$> p.

Definition ne (x y : value) : tv := not3 (eq x y).

Definition and3 (p q : tv) : tv :=
  match p, q with
  | Some false, _ | _, Some false => Some false
  | Some true, Some true => Some true
  | _, _ => None
  end.

Definition or3 (p q : tv) : tv :=
  match p, q with
  | Some true, _ | _, Some true => Some true
  | Some false, Some false => Some false
  | _, _ => None
  end.

Definition is_null (x : value) : tv :=
  Some (match x with None => true | Some _ => false end).

Definition is_not_null (x : value) : tv := not3 (is_null x).

(** [x IN (l)]: FALSE on the empty list whatever [x] is, otherwise the
    disjunction of the equalities. *)
Definition in_ (x : value) (l : list value) : tv :=
  foldr (fun y acc => or3 (eq x y) acc) (Some false) l.

Definition not_in (x : value) (l : list value) : tv := not3 (in_ x l).

(** A WHERE or ON clause keeps a row only when its condition is TRUE. *)
Definition holds (p : tv) : bool :=
  match p with Some true => true | _ => false end.

Definition where_ {A} (cond : A -> tv) (l : list A) : list A :=
  List.filter (fun a => holds (cond a)) l.

Definition inner_join {A B} (l : list A) (r : list B) (on : A -> B -> tv)
  : list (A * B) :=
  a ← l; b ← r; if holds (on a b) then [(a, b)] else [].

(** Compound selects work on distinct rows; NULLs count as equal. *)
Definition union (l k : list value) : list value := remove_dups (l ++ k).

Definition intersect (l k : list value) : list value :=
  remove_dups (list_intersection l k).

(** ** Text of a string literal

    [scan_literal s] reads a single-quoted literal whose opening quote
    has just been consumed: a doubled quote stands for one quote, a
    single quote closes the literal, and the statement text ends at the
    first NUL byte. *)
Inductive literal : Type :=
| Closed (v rest : string)
| Unterminated.

Definition push (c : ascii) (l : literal) : literal :=
  match l with
  | Closed v rest => Closed (String c v) rest
  | Unterminated => Unterminated
  end.

Fixpoint scan_literal (s : string) : literal :=
  match s with
  | EmptyString => Unterminated
  | String c t =>
      if bool_decide (c = "000"%char) then Unterminated
      else if bool_decide (c = "'"%char) then
        match t with
        | String c' t' =>
            if bool_decide (c' = "'"%char) then push "'"%char (scan_literal t')
            else Closed "" t
        | EmptyString => Closed "" t
        end
      else push c (scan_literal t)
  end.

End Sql.

(** * data.go *)

Module Data.

Import Sql.

Record Configuration : Type := mkConfiguration {
  ID : string;
  OrgID : string;
  EnvID : string;
  BlobID : string;
  BlobResourceID : string;
  Type' : string;
  Name : string;
  Revision : string;
  Path : string;
  Created : string;
  CreatedBy : string;
  Updated : string;
  UpdatedBy : string
}.

(** A row of [metadata_runtime_entity_metadata]. *)
Record metadata_row : Type := mkMetadata {
  id : value;
  organization_id : value;
  environment_id : value;
  bean_blob_id : value;
  resource_blob_id : value;
  type : value;
  name : value;
  revision : value;
  path : value;
  created_at : value;
  created_by : value;
  updated_at : value;
  updated_by : value;
  _change_selector : value
}.

(** The database behind [dbc.getDb()]. [apid_blob_available] has
    [id text primary key] and [local_fs_location text NOT NULL], and is
    written only through [updateLocalFsLocation] with Go strings, so it is
    a finite map from id to location. [fault] is [Some e] while the
    storage is unavailable: [Begin] and [Query] then fail with [e]. *)
Record DB : Type := mkDB {
  metadata_runtime_entity_metadata : list metadata_row;
  apid_blob_available : gmap string string;
  fault : option error
}.

(** [SELECT b.id FROM apid_blob_available as b] and the rows of the table. *)
Definition blob_rows (db : DB) : list (string * string) :=
  map_to_list (apid_blob_available db).

Definition blob_ids (db : DB) : list value :=
  (fun b => Some b.1) <$> blob_rows db.

(** ** structFromRows / structFromRow *)

Record NullString : Type := mkNullString { String' : string; Valid : bool }.

(** [NullString.Scan] *)
Definition scanNullString (v : value) : NullString :=
  match v with
  | None => mkNullString "" false
  | Some s => mkNullString s true
  end.

(** [rows.Scan(cols...)] with [n] destinations of type [*sql.NullString]. *)
Definition Scan (n : nat) (row : list value) : list NullString * option error :=
  if bool_decide (length row = n) then (scanNullString <$> row, None)
  else ([], Some "sql: expected destination arguments in Scan").

(** [reflect.New(t).Elem()] *)
Definition zero : Configuration :=
  mkConfiguration "" "" "" "" "" "" "" "" "" "" "" "" "".

(** [t.NumField()] *)
Definition NumField : nat := 13.

(** [v.Field(i).SetString(s)] *)
Definition SetString (i : nat) (s : string) (v : Configuration) : Configuration :=
  let '(mkConfiguration f0 f1 f2 f3 f4 f5 f6 f7 f8 f9 f10 f11 f12) := v in
  match i with
  | 0 => mkConfiguration s f1 f2 f3 f4 f5 f6 f7 f8 f9 f10 f11 f12
  | 1 => mkConfiguration f0 s f2 f3 f4 f5 f6 f7 f8 f9 f10 f11 f12
  | 2 => mkConfiguration f0 f1 s f3 f4 f5 f6 f7 f8 f9 f10 f11 f12
  | 3 => mkConfiguration f0 f1 f2 s f4 f5 f6 f7 f8 f9 f10 f11 f12
  | 4 => mkConfiguration f0 f1 f2 f3 s f5 f6 f7 f8 f9 f10 f11 f12
  | 5 => mkConfiguration f0 f1 f2 f3 f4 s f6 f7 f8 f9 f10 f11 f12
  | 6 => mkConfiguration f0 f1 f2 f3 f4 f5 s f7 f8 f9 f10 f11 f12
  | 7 => mkConfiguration f0 f1 f2 f3 f4 f5 f6 s f8 f9 f10 f11 f12
  | 8 => mkConfiguration f0 f1 f2 f3 f4 f5 f6 f7 s f9 f10 f11 f12
  | 9 => mkConfiguration f0 f1 f2 f3 f4 f5 f6 f7 f8 s f10 f11 f12
  | 10 => mkConfiguration f0 f1 f2 f3 f4 f5 f6 f7 f8 f9 s f11 f12
  | 11 => mkConfiguration f0 f1 f2 f3 f4 f5 f6 f7 f8 f9 f10 s f12
  | 12 => mkConfiguration f0 f1 f2 f3 f4 f5 f6 f7 f8 f9 f10 f11 s
  | _ => v
  end.

(** [v.Field(i).String()] *)
Definition Field (i : nat) (v : Configuration) : string :=
  nth i [ID v; OrgID v; EnvID v; BlobID v; BlobResourceID v; Type' v; Name v;
         Revision v; Path v; Created v; CreatedBy v; Updated v; UpdatedBy v] "".

(** The loop [for i := range cols { p := cols[i]; if p.Valid { ... } }],
    entered at index [i]. *)
Fixpoint setFields (i : nat) (cols : list NullString) (v : Configuration)
  : Configuration :=
  match cols with
  | [] => v
  | p :: cols' =>
      setFields (S i) cols' (if Valid p then SetString i (String' p) v else v)
  end.

Definition structFromRow (row : list value) : option Configuration * option error :=
  match Scan NumField row with
  | (_, Some err) => (None, Some err)
  | (cols, None) => (Some (setFields 0 cols zero), None)
  end.

(** The loop of [structFromRows] with [slice] as accumulator; a nil slice
    is the empty list. *)
Fixpoint structFromRows_loop (rows : list (list value)) (slice : list Configuration)
  : list Configuration * option error :=
  match rows with
  | [] => (slice, None)
  | row :: rows' =>
      match Scan NumField row with
      | (_, Some err) => ([], Some err)
      | (cols, None) => structFromRows_loop rows' (slice ++ [setFields 0 cols zero])
      end
  end.

Definition structFromRows (rows : list (list value))
  : list Configuration * option error :=
  structFromRows_loop rows [].

Definition dataDeploymentsFromRows := structFromRows.

(** The thirteen columns every configuration query selects, in order. *)
Definition select_columns (a : metadata_row) : list value :=
  [id a; organization_id a; environment_id a; bean_blob_id a;
   resource_blob_id a; type a; name a; revision a; path a;
   created_at a; created_by a; updated_at a; updated_by a].

(** ** getUnreadyBlobs *)

(** The rows of the query: a UNION of the two NOT IN selects, filtered by
    [id IS NOT NULL AND id != '']. The order of the rows of a UNION is the
    engine's; only membership is meaningful. *)
Definition unready_ids (db : DB) : list value :=
  let a := metadata_runtime_entity_metadata db in
  let beans :=
    bean_blob_id <$> where_ (fun a => not_in (bean_blob_id a) (blob_ids db)) a in
  let resources :=
    resource_blob_id <$> where_ (fun a => not_in (resource_blob_id a) (blob_ids db)) a in
  where_ (fun i => and3 (is_not_null i) (ne i (Some ""))) (union beans resources).

(** [rows.Scan(&id)] with [id string]. *)
Definition scanString (v : value) : string * option error :=
  match v with
  | Some s => (s, None)
  | None => ("", Some "sql: Scan error: converting NULL to string is unsupported")
  end.

Fixpoint getUnreadyBlobs_loop (rows : list value) (ids : list string)
  : list string * option error :=
  match rows with
  | [] => (ids, None)
  | v :: rows' =>
      match scanString v with
      | (_, Some err) => (ids, Some err)
      | (i, None) => getUnreadyBlobs_loop rows' (ids ++ [i])
      end
  end.

Definition getUnreadyBlobs (db : DB) : list string * option error :=
  match fault db with
  | Some err => ([], Some err)
  | None => getUnreadyBlobs_loop (unready_ids db) []
  end.

(** ** getReadyDeployments *)

(** [a.resource_blob_id IS NOT NULL AND a.resource_blob_id != ""]; the
    double-quoted empty token names no column and is read as the empty
    string literal. *)
Definition with_resource (a : metadata_row) : tv :=
  and3 (is_not_null (resource_blob_id a)) (ne (resource_blob_id a) (Some "")).

(** [a.resource_blob_id IS NULL OR a.resource_blob_id = ""] *)
Definition without_resource (a : metadata_row) : tv :=
  or3 (is_null (resource_blob_id a)) (eq (resource_blob_id a) (Some "")).

(** [SELECT a.id FROM metadata as a INNER JOIN apid_blob_available as b
     ON a.<col> = b.id WHERE <cond>] *)
Definition joined_ids (db : DB) (col : metadata_row -> value)
    (cond : metadata_row -> tv) : list value :=
  (fun ab => id ab.1) <$>
    where_ (fun ab => cond ab.1)
      (inner_join (metadata_runtime_entity_metadata db) (blob_rows db)
         (fun a b => eq (col a) (Some b.1))).

(** The compound subquery; INTERSECT and UNION group from the left. *)
Definition ready_ids (db : DB) : list value :=
  union
    (intersect (joined_ids db resource_blob_id with_resource)
               (joined_ids db bean_blob_id with_resource))
    (joined_ids db bean_blob_id without_resource).

(** The statements have no ORDER BY: the order of the rows is the
    engine's. The rows are listed here in the order of the table list, and
    only membership in the answer is meaningful. *)
Definition getReadyDeployments (db : DB) (typeFilter : string)
  : list Configuration * option error :=
  match fault db with
  | Some err => ([], Some err)
  | None =>
      let a := metadata_runtime_entity_metadata db in
      let rows :=
        if bool_decide (typeFilter = "") then
          where_ (fun a => in_ (id a) (ready_ids db)) a
        else
          where_ (fun a => and3 (eq (type a) (Some typeFilter))
                                (in_ (id a) (ready_ids db))) a in
      match dataDeploymentsFromRows (select_columns <$> rows) with
      | (_, Some err) => ([], Some err)
      | (deployments, None) => (deployments, None)
      end
  end.

(** ** updateLocalFsLocation *)

(** [INSERT OR IGNORE INTO apid_blob_available (id, local_fs_location)
     VALUES (?, ?)] with both values bound as parameters: a row whose id
    is already present is skipped. *)
Definition insert_or_ignore (blobId localFsLocation : string)
    (t : gmap string string) : gmap string string :=
  match t !! blobId with
  | Some _ => t
  | None => <[blobId := localFsLocation]> t
  end.

Definition updateLocalFsLocation (db : DB) (blobId localFsLocation : string)
  : DB * option error :=
  match fault db with
  | Some err => (db, Some err)
  | None =>
      (mkDB (metadata_runtime_entity_metadata db)
            (insert_or_ignore blobId localFsLocation (apid_blob_available db))
            None,
       None)
  end.

(** ** getLocalFSLocation *)

Section Lookup.

(** The statement is built by splicing [blobId] between two quotes.
    When the spliced text is one literal and nothing follows it, the
    statement is the point query on that literal's value; when the
    literal never closes, the statement does not parse. Any other text
    is a different statement, whose rows are the engine's to decide:
    [other_statement v rest db] stands for the engine run on
    [... WHERE id = 'v' rest]. *)
Variable other_statement : string -> string -> DB -> list string * option error.

Definition query_local_fs_location (db : DB) (blobId : string)
  : list string * option error :=
  match fault db with
  | Some err => ([], Some err)
  | None =>
      match scan_literal (blobId +:+ "'") with
      | Unterminated => ([], Some "unrecognized token")
      | Closed v "" =>
          (match apid_blob_available db !! v with
           | Some location => [location]
           | None => []
           end, None)
      | Closed v rest => other_statement v rest db
      end
  end.

(** [for rows.Next() { err = rows.Scan(&localFsLocation) ... }]: the
    value of the last row, or the zero string when there is none. *)
Definition getLocalFSLocation (db : DB) (blobId : string)
  : string * option error :=
  match query_local_fs_location db blobId with
  | (_, Some err) => ("", Some err)
  | (rows, None) => (foldl (fun _ location => location) "" rows, None)
  end.

End Lookup.

End Data.

(** * api.go *)

Module Api.

Definition API_ERR_BAD_BLOCK : Z := 1.
Definition API_ERR_INTERNAL : Z := 2.

(** The [net/http] status codes the handlers send. *)
Definition StatusOK : Z := 200.
Definition StatusNotModified : Z := 304.
Definition StatusBadRequest : Z := 400.
Definition StatusNotFound : Z := 404.
Definition StatusInternalServerError : Z := 500.

(** [DataDeployment] is declared outside api.go; these are the fields
    [sendDeployments] reads, all assigned to string fields. *)
Record DataDeployment : Type := mkDataDeployment {
  OrgID : string;
  EnvID : string;
  Revision : string;
  GWBlobID : string;
  BlobResourceID : string;
  Created : string;
  Updated : string;
  Type' : string;
  BlobURL : string
}.

Record deploymentsResult : Type := mkDeploymentsResult {
  deployments : list DataDeployment;
  err : option error;
  eTag' : string
}.

Record errorResponse : Type := mkErrorResponse {
  ErrorCode : Z;
  Reason : string
}.

Record ApiDeploymentDetails : Type := mkApiDeploymentDetails {
  Self : string;
  Name : string;
  Org : string;
  Env : string;
  details_Type : string;
  details_BlobURL : string;
  details_Revision : string;
  BlobId : string;
  ResourceBlobId : string;
  details_Created : string;
  details_Updated : string
}.

Record ApiDeploymentResponse : Type := mkApiDeploymentResponse {
  Kind : string;
  response_Self : string;
  contents : list ApiDeploymentDetails
}.

(** ** http.ResponseWriter

    What was written to the body is kept as a list of chunks;
    [json.Marshal] stays symbolic, a JSON chunk records the value that was
    marshalled. *)
Inductive chunk : Type :=
| JSON_errorResponse (e : errorResponse)
| JSON_ApiDeploymentResponse (r : ApiDeploymentResponse)
| Raw (bytes : string).

Record ResponseWriter : Type := mkResponseWriter {
  status : option Z;
  header : gmap string string;
  body : list chunk
}.

Definition newResponseWriter : ResponseWriter := mkResponseWriter None ∅ [].

(** The first call fixes the status line; later calls are ignored. *)
Definition WriteHeader (code : Z) (w : ResponseWriter) : ResponseWriter :=
  match status w with
  | Some _ => w
  | None => mkResponseWriter (Some code) (header w) (body w)
  end.

(** A write before any [WriteHeader] sends [200] first. *)
Definition Write (c : chunk) (w : ResponseWriter) : ResponseWriter :=
  let w := WriteHeader StatusOK w in
  mkResponseWriter (status w) (header w) (body w ++ [c]).

(** [w.Header().Set(k, v)]; headers are frozen once the status is sent. *)
Definition Header_Set (k v : string) (w : ResponseWriter) : ResponseWriter :=
  match status w with
  | Some _ => w
  | None => mkResponseWriter None (<[k := v]> (header w)) (body w)
  end.

(** The status the client receives once the handler has returned. *)
Definition StatusCode (w : ResponseWriter) : Z := default StatusOK (status w).

(** The body when it consists of raw bytes only. *)
Fixpoint raw_body (cs : list chunk) : option string :=
  match cs with
  | [] => Some ""
  | Raw bytes :: cs' => (fun rest => bytes +:+ rest) <$> raw_body cs'
  | _ :: _ => None
  end.

(** [io.Copy(w, bytes.NewReader(b))]: the reader hands its whole content
    to one [Write], and makes no call when there is nothing to send. *)
Definition io_Copy (w : ResponseWriter) (b : string) : ResponseWriter :=
  if bool_decide (b = "") then w else Write (Raw b) w.

(** ** Requests *)

Record Request : Type := mkRequest {
  query : list (string * string);
  headers : list (string * string);
  vars : gmap string string
}.

(** [Values.Get] and [Header.Get]: the first value under the key, or the
    empty string. *)
Fixpoint Get (key : string) (l : list (string * string)) : string :=
  match l with
  | [] => ""
  | (k, v) :: l' => if bool_decide (k = key) then v else Get key l'
  end.

(** ** strconv *)

(** [int] and [int64] are 64 bits wide. *)
Definition minInt64 : Z := - 2 ^ 63.
Definition maxInt64 : Z := 2 ^ 63 - 1.

Definition digit (c : ascii) : option Z :=
  let n := (Z.of_N (N_of_ascii c) - 48)%Z in
  if bool_decide (0 ≤ n ≤ 9)%Z then Some n else None.

Fixpoint digits (s : string) (n : Z) : option Z :=
  match s with
  | EmptyString => Some n
  | String c t =>
      match digit c with
      | Some d => digits t (n * 10 + d)%Z
      | None => None
      end
  end.

(** [strconv.Atoi]: an optional sign, then at least one decimal digit and
    nothing else; a value outside [int] is a range error. *)
Definition Atoi (s : string) : Z * option error :=
  let '(neg, s1) :=
    match s with
    | String "-" t => (true, t)
    | String "+" t => (false, t)
    | _ => (false, s)
    end in
  match s1 with
  | EmptyString => (0%Z, Some "invalid syntax")
  | _ =>
      match digits s1 0 with
      | None => (0%Z, Some "invalid syntax")
      | Some n =>
          let v := if neg then (- n)%Z else n in
          if bool_decide (minInt64 ≤ v ≤ maxInt64)%Z then (v, None)
          else (if neg then minInt64 else maxInt64, Some "value out of range")
      end
  end.

(** [strconv.FormatInt(e, 10)] *)
Definition FormatInt (e : Z) : string := pretty e.

(** ** Package state *)

Record World : Type := mkWorld {
  eTag : Z;
  db : Data.DB;
  files : gmap string string;
  config : gmap string string
}.

(** Two's-complement wrap-around of a 64-bit signed addition. *)
Definition wrap64 (z : Z) : Z := ((z - minInt64) `mod` 2 ^ 64 + minInt64)%Z.

(** [atomic.AddInt64(&eTag, 1)] followed by [FormatInt]. *)
Definition incrementETag (W : World) : World * string :=
  let e := wrap64 (eTag W + 1) in
  (mkWorld e (db W) (files W) (config W), FormatInt e).

Definition getETag (W : World) : string := FormatInt (eTag W).

(** [config.GetString] *)
Definition GetString (W : World) (key : string) : string :=
  default "" (config W !! key).

(** [ioutil.ReadFile]; the empty path names no file. *)
Definition ReadFile (W : World) (filename : string) : string * option error :=
  if bool_decide (filename = "") then ("", Some "open : no such file or directory")
  else
    match files W !! filename with
    | Some bytes => (bytes, None)
    | None => ("", Some ("open " +:+ filename +:+ ": no such file or directory"))
    end.

(** ** Subscriber channels *)

Definition chan : Type := nat.

(** What a handler sends on the two package channels; a [nil] channel
    value is [None]. *)
Inductive chan_op : Type :=
| addSubscriber_send (c : chan)
| removeSubscriber_send (c : option chan).

(** How the [select] of a blocked request resolves. *)
Inductive select_outcome : Type :=
| received (result : deploymentsResult)
| timed_out.

(** What the loop of [distributeEvents] receives. *)
Inductive event : Type :=
| deliverDeployments_recv (ok : bool)
| addSubscriber_recv (subscriber : chan)
| removeSubscriber_recv (subscriber : option chan).

Section Handlers.

(** The two package-level queries of this version of the API are
    declared outside the files at hand. *)
Variable getReadyDeployments : Data.DB -> list DataDeployment * option error.
Variable getUnreadyDeployments : Data.DB -> list DataDeployment * option error.

Variable other_statement :
  string -> string -> Data.DB -> list string * option error.

Definition getLocalFSLocation (W : World) (blobId : string)
  : string * option error :=
  Data.getLocalFSLocation other_statement (db W) blobId.

Definition writeError (w : ResponseWriter) (status code : Z) (reason : string)
  : ResponseWriter :=
  Write (JSON_errorResponse (mkErrorResponse code reason)) (WriteHeader status w).

Definition writeInternalError (w : ResponseWriter) (err : string)
  : ResponseWriter :=
  writeError w StatusInternalServerError API_ERR_INTERNAL err.

(** One iteration of the [for]/[select] loop: the subscriber set it
    continues with ([None] when the loop returns) and the set handed to
    the goroutine it starts, if any. *)
Definition distributeEvents_step (subscribers : gset chan) (ev : event)
  : option (gset chan) * option (gset chan) :=
  match ev with
  | deliverDeployments_recv false => (None, None)
  | deliverDeployments_recv true => (Some ∅, Some subscribers)
  | addSubscriber_recv subscriber => (Some ({[subscriber]} ∪ subscribers), None)
  | removeSubscriber_recv (Some subscriber) =>
      (Some (subscribers ∖ {[subscriber]}), None)
  | removeSubscriber_recv None => (Some subscribers, None)
  end.

(** The goroutine started by a settle: the results it sends, each to a
    buffered channel of capacity one. *)
Definition deliver (W : World) (subs : gset chan)
  : World * list (chan * deploymentsResult) :=
  let '(W', eTag) := incrementETag W in
  let '(deployments, err) := getUnreadyDeployments (db W') in
  (W', (fun subscriber => (subscriber, mkDeploymentsResult deployments err eTag))
         <$> elements subs).

Definition apiReturnBlobData (W : World) (r : Request) : ResponseWriter :=
  let w := newResponseWriter in
  let blobId := default "" (vars r !! "blobId") in
  match getLocalFSLocation W blobId with
  | (_, Some _) =>
      writeInternalError w ("BlobId " +:+ blobId +:+ " has no mapping blob file")
  | (fs, None) =>
      match ReadFile W fs with
      | (_, Some err) => writeInternalError w err
      | (byte, None) => io_Copy w byte
      end
  end.

Definition get_http_host (W : World) : string :=
  let proto := GetString W "protocol_type" in
  let proto := if bool_decide (proto = "") then "http" else proto in
  proto +:+ "://" +:+ GetString W "api_listen".

(** [json.Marshal] of a struct of strings does not fail, so the branch
    answering 500 is never taken. *)
Definition sendDeployments (W : World) (w : ResponseWriter)
    (dataDeps : list DataDeployment) (eTag : string) : ResponseWriter :=
  let apiDepDetails :=
    (fun d => mkApiDeploymentDetails "" "" (OrgID d) (EnvID d) (Type' d)
                (BlobURL d) (Revision d) (GWBlobID d) (BlobResourceID d)
                (Created d) (Updated d)) <$> dataDeps in
  let apiDeps :=
    mkApiDeploymentResponse "Collections" (get_http_host W +:+ "/configurations")
      apiDepDetails in
  Write (JSON_ApiDeploymentResponse apiDeps) (Header_Set "ETag" eTag w).

Definition sendReadyDeployments (W : World) (w : ResponseWriter) : ResponseWriter :=
  let eTag := getETag W in
  match getReadyDeployments (db W) with
  | (_, Some _) => writeInternalError w "Database error"
  | (deployments, None) => sendDeployments W w deployments eTag
  end.

(** [newDeploymentsChannel] is [fresh] when the request subscribes and
    [nil] otherwise; a [nil] channel never delivers, so the timer branch
    is then the only one that can run. *)
Definition apiGetCurrentDeployments (W : World) (r : Request) (fresh : chan)
    (sel : select_outcome) : ResponseWriter * list chan_op :=
  let w := newResponseWriter in
  let b := Get "block" (query r) in
  match (if bool_decide (b ≠ "") then Atoi b else (0%Z, None)) with
  | (_, Some _) =>
      (writeError w StatusBadRequest API_ERR_BAD_BLOCK
         "bad block value, must be number of seconds", [])
  | (timeout, None) =>
      let ifNoneMatch := Get "If-None-Match" (headers r) in
      let eTag := getETag W in
      if bool_decide (eTag = ifNoneMatch) && bool_decide (timeout = 0%Z) then
        (WriteHeader StatusNotModified w, [])
      else if bool_decide (eTag ≠ ifNoneMatch) then
        (sendReadyDeployments W w, [])
      else
        let subscribe :=
          bool_decide (0 < timeout)%Z && bool_decide (ifNoneMatch ≠ "") in
        let newDeploymentsChannel := if subscribe then Some fresh else None in
        let sent := if subscribe then [addSubscriber_send fresh] else [] in
        match newDeploymentsChannel, sel with
        | Some _, received result =>
            (match err result with
             | Some _ => writeInternalError w "Database error"
             | None => sendDeployments W w (deployments result) (eTag' result)
             end, sent)
        | _, _ =>
            (if bool_decide (ifNoneMatch ≠ "") then WriteHeader StatusNotModified w
             else sendReadyDeployments W w,
             sent ++ [removeSubscriber_send newDeploymentsChannel])
        end
  end.

(** A run of settles, each with the subscribers it found: the world
    after the last one and the sends of each, oldest first. *)
Fixpoint settles (W : World) (batches : list (gset chan))
  : World * list (list (chan * deploymentsResult)) :=
  match batches with
  | [] => (W, [])
  | subs :: batches' =>
      let '(W', sends) := deliver W subs in
      let '(W'', rest) := settles W' batches' in
      (W'', sends :: rest)
  end.

End Handlers.

(** The configuration details of a response whose body is one marshalled
    [ApiDeploymentResponse]. *)
Definition rendered (w : ResponseWriter) : list ApiDeploymentDetails :=
  match body w with
  | [JSON_ApiDeploymentResponse r] => contents r
  | _ => []
  end.

(** The counter after [n] settles, started at [e]. *)
Definition eTag_after (n : N) (e : Z) : Z :=
  N.iter n (fun e => wrap64 (e + 1)) e.

(** The world a fresh process starts in: the counter is zero. *)
Definition initial (d : Data.DB) (fs cfg : gmap string string) : World :=
  mkWorld 0 d fs cfg.

End Api.

(** * The specification's vocabulary *)

Module Spec.

Import Data.

(** [id] is the primary key of the configuration table: never NULL and
    never repeated. *)
Definition primary_key (rows : list metadata_row) : Prop :=
  Forall (fun a => is_Some (id a)) rows ∧ NoDup (id <$> rows).

(** The set A of available blob ids. *)
Definition available (db : DB) : gset string := dom (apid_blob_available db).

(** A blob reference is satisfied when it is an id of A. *)
Definition blob_available (db : DB) (blob : Sql.value) : Prop :=
  ∃ i, blob = Some i ∧ i ∈ available db.

(** The readiness predicate. *)
Definition ready (db : DB) (a : metadata_row) : Prop :=
  blob_available db (bean_blob_id a) ∧
  (resource_blob_id a = None ∨ resource_blob_id a = Some ""
   ∨ blob_available db (resource_blob_id a)).

(** The record a row is returned as: every NULL reads as the empty
    string. *)
Definition configuration_of (a : metadata_row) : Configuration :=
  mkConfiguration
    (default "" (id a)) (default "" (organization_id a))
    (default "" (environment_id a)) (default "" (bean_blob_id a))
    (default "" (resource_blob_id a)) (default "" (type a))
    (default "" (name a)) (default "" (revision a)) (default "" (path a))
    (default "" (created_at a)) (default "" (created_by a))
    (default "" (updated_at a)) (default "" (updated_by a)).

(** The bean and resource blob ids referenced by the configurations,
    NULL references left out. *)
Definition referenced (rows : list metadata_row) : gset string :=
  list_to_set (omap bean_blob_id rows ++ omap resource_blob_id rows).

(** A row with every NULL replaced by the empty string. *)
Definition denull (row : list Sql.value) : list Sql.value :=
  (fun v => Some (default "" v)) <$> row.

(** A blob id that can be spliced between two quotes unchanged: it holds
    neither a quote nor a NUL byte. *)
Fixpoint plain (s : string) : bool :=
  match s with
  | EmptyString => true
  | String c t =>
      negb (bool_decide (c = "000"%char)) && negb (bool_decide (c = "'"%char))
      && plain t
  end.

End Spec.

(** * A worked scenario *)

Module Scenario.
Import Data.

(** The scenario of the specification: configuration A needs bean b1
    only, configuration B needs bean b2 and resource r2, and b1 is the
    one blob recorded so far. *)
Definition config_A : metadata_row :=
  mkMetadata (Some "A") (Some "org") None (Some "b1") (Some "")
    (Some "ORGANIZATION") (Some "Org1") None (Some "/organizations/Org1/")
    (Some "2017-06-27 03:14:45.748+00:00") (Some "defaultUser")
    (Some "2017-06-27 03:15:03.557+00:00") (Some "defaultUser") None.

Definition config_B : metadata_row :=
  mkMetadata (Some "B") (Some "org") (Some "env") (Some "b2") (Some "r2")
    (Some "ENVIRONMENT") (Some "test") None (Some "/organizations/Org1/")
    (Some "2017-06-27 03:14:46.018+00:00") (Some "defaultUser")
    (Some "2017-06-27 03:14:46.018+00:00") (Some "defaultUser") None.

Definition store : DB :=
  mkDB [config_A; config_B] {[ "b1" := "/tmp/tmpapid/b1" ]} None.

(** The same configuration A read once with a NULL and once with an empty
    resource blob id. *)
Definition row_null : list Sql.value :=
  [Some "A"; Some "org"; None; Some "b1"; None; Some "ORGANIZATION";
   Some "Org1"; None; Some "/organizations/Org1/"; Some "t0";
   Some "defaultUser"; Some "t1"; Some "defaultUser"].

Definition row_empty : list Sql.value := <[4 := Some ""]> row_null.

(** A fresh process over that store, with the file of b1 on disk. *)
Definition world : Api.World :=
  Api.initial store {[ "/tmp/tmpapid/b1" := "bundle bytes" ]} ∅.

(** Answers of the two deployment queries: A is ready, B is not. *)
Definition deployment_A : Api.DataDeployment :=
  Api.mkDataDeployment "org" "" "" "b1" "" "2017-04-05 04:47:36.462 +0000 UTC"
    "2017-04-05T04:47:36.462Z" "ORGANIZATION" "http://localhost/blob/b1".

Definition deployment_B : Api.DataDeployment :=
  Api.mkDataDeployment "org" "env" "" "b2" "r2" "2017-04-05 23:23:38.162+00:00"
    "2017-06-22 16:41:02.334" "ENVIRONMENT" "http://localhost/blob/b2".

Definition ready_query (d : Data.DB) : list Api.DataDeployment * option error :=
  ([deployment_A], None).

Definition unready_query (d : Data.DB) : list Api.DataDeployment * option error :=
  ([deployment_B], None).

(** Three settles: one waiter, none, two waiters. *)
Definition batches : list (gset Api.chan) := [{[1]}; ∅; {[2; 3]}].

(** A request for [/blob/{blobId}]. *)
Definition blob_request (blobId : string) : Api.Request :=
  Api.mkRequest [] [] {[ "blobId" := blobId ]}.

(** A request for [/configurations] with a [block] value and an
    [If-None-Match] header. *)
Definition poll_request (block ifNoneMatch : string) : Api.Request :=
  Api.mkRequest [("block", block)] [("If-None-Match", ifNoneMatch)] ∅.

(** An engine that refuses every statement other than the point query. *)
Definition engine (v rest : string) (d : Data.DB) : list string * option error :=
  ([], Some "near: syntax error").

(** The same process with a file for b2 on disk, not yet recorded. *)
Definition world_b2 : Api.World :=
  Api.mkWorld 0 store {[ "/tmp/tmpapid/b2" := "second bundle" ]} ∅.

(** A stretch of the loop without a settle: waiter 2 comes, waiter 1
    goes, a request that never subscribed times out. *)
Definition stretch : list Api.event :=
  [Api.addSubscriber_recv 2; Api.removeSubscriber_recv (Some 1);
   Api.removeSubscriber_recv None].

(** A run of the loop: a waiter, a settle, another waiter, a settle. *)
Definition two_settles : list Api.event :=
  [Api.addSubscriber_recv 1; Api.deliverDeployments_recv true;
   Api.addSubscriber_recv 2; Api.deliverDeployments_recv true].
End Scenario.

(** * data.go: single-row queries and runs of records *)

Module DataRow.

Import Sql Data.

(** [sql.ErrNoRows] *)
Definition ErrNoRows : error := "sql: no rows in result set".

(** A [*sql.Row]: the error of the query, kept until [Scan], and the rows
    the query produced. *)
Record Row : Type := mkRow {
  row_err : option error;
  row_rows : list (list value)
}.

(** [db.QueryRow] *)
Definition QueryRow (db : DB) (rows : list (list value)) : Row :=
  match fault db with
  | Some err => mkRow (Some err) []
  | None => mkRow None rows
  end.

(** What [row.Scan] comes to: the kept error, no row at all, or the first
    row scanned into the destinations. The three are told apart by
    identity in the source ([err != sql.ErrNoRows]), hence by constructor
    here. *)
Inductive scanned : Type :=
| Failed (err : error)
| NoRows
| Scanned (cols : list NullString).

Definition Row_Scan (n : nat) (r : Row) : scanned :=
  match row_err r with
  | Some err => Failed err
  | None =>
      match row_rows r with
      | [] => NoRows
      | row :: _ =>
          match Scan n row with
          | (_, Some err) => Failed err
          | (cols, None) => Scanned cols
          end
      end
  end.

(** [structFromRow] on a [*sql.Row]. *)
Definition structFromRow (row : Row) : option Configuration * option error :=
  match Row_Scan NumField row with
  | Failed err => (None, Some err)
  | NoRows => (None, Some ErrNoRows)
  | Scanned cols => (Some (setFields 0 cols zero), None)
  end.

Definition dataDeploymentsFromRow (row : Row) : option Configuration * option error :=
  match structFromRow row with
  | (_, Some err) => (None, Some err)
  | (config, None) => (config, None)
  end.

(** [SELECT ... FROM metadata_runtime_entity_metadata as a WHERE a.id = ?] *)
Definition getConfigById (db : DB) (id : string)
  : option Configuration * option error :=
  let row :=
    QueryRow db
      (select_columns <$>
         where_ (fun a => eq (Data.id a) (Some id))
           (metadata_runtime_entity_metadata db)) in
  match dataDeploymentsFromRow row with
  | (_, Some err) => (None, Some err)
  | (config, None) => (config, None)
  end.

(** [select last_sequence from EDGEX_APID_CLUSTER LIMIT 1], the table
    given by its [last_sequence] column. *)
Definition getLastSequence (db : DB) (EDGEX_APID_CLUSTER : list value)
  : string * option error :=
  match Row_Scan 1 (QueryRow db ((fun v => [v]) <$> take 1 EDGEX_APID_CLUSTER)) with
  | Failed err => ("", Some err)
  | NoRows => ("", None)
  | Scanned [lastSequence] =>
      (if Valid lastSequence then String' lastSequence else "", None)
  | Scanned _ => ("", None)
  end.

(** A run of [updateLocalFsLocation] calls, oldest first: the store after
    the last call and the error of each call. *)
Fixpoint record_all (db : DB) (calls : list (string * string))
  : DB * list (option error) :=
  match calls with
  | [] => (db, [])
  | (blobId, localFsLocation) :: calls' =>
      let '(db', err) := updateLocalFsLocation db blobId localFsLocation in
      let '(db'', errs) := record_all db' calls' in
      (db'', err :: errs)
  end.

End DataRow.

(** * api.go: the debouncer and the subscriber loop *)

Module Distributor.

Import Api.

Section Debounce.

(** The element type of the two channels ([interface{}]). *)
Context {A : Type}.

(** How the [select] of one iteration resolves: a value received from
    [in], [in] found closed, or the timer of [window] firing. *)
Inductive input : Type :=
| Incoming (incoming : A)
| InClosed
| After.

(** What the debouncer does to [out]. *)
Inductive output : Type :=
| Sent (toSend : list A)
| OutClosed.

(** The closure [send]; a nil slice is the empty list, and [toSend] is
    never an empty slice that is not nil. *)
Definition send (toSend : list A) : list output :=
  match toSend with
  | [] => []
  | _ => [Sent toSend]
  end.

(** One iteration of the loop: the next [toSend] ([None] once the
    function has returned) and what was done to [out]. *)
Definition debounce_step (toSend : list A) (i : input)
  : option (list A) * list output :=
  match i with
  | Incoming incoming => (Some (toSend ++ [incoming]), [])
  | InClosed => (None, send toSend ++ [OutClosed])
  | After => (Some [], send toSend)
  end.

(** The loop over a resolution of its selects: everything done to [out],
    and the [toSend] it is left with while still running. *)
Fixpoint debounce (toSend : list A) (inputs : list input)
  : list output * option (list A) :=
  match inputs with
  | [] => ([], Some toSend)
  | i :: inputs' =>
      match debounce_step toSend i with
      | (None, outs) => (outs, None)
      | (Some toSend', outs) =>
          let '(outs', final) := debounce toSend' inputs' in
          (outs ++ outs', final)
      end
  end.

(** The values received before [in] was closed, in order. *)
Fixpoint incomings (inputs : list input) : list A :=
  match inputs with
  | [] => []
  | Incoming incoming :: inputs' => incoming :: incomings inputs'
  | InClosed :: _ => []
  | After :: inputs' => incomings inputs'
  end.

(** The batches sent, in order. *)
Definition batches (outs : list output) : list (list A) :=
  omap (fun o => match o with Sent toSend => Some toSend | OutClosed => None end) outs.

(** What the loop of [distributeEvents] receives from [deliverDeployments]
    for each thing done to it. *)
Definition delivered (o : output) : event :=
  match o with
  | Sent _ => deliverDeployments_recv true
  | OutClosed => deliverDeployments_recv false
  end.

End Debounce.

Arguments input : clear implicits.
Arguments output : clear implicits.

(** The loop of [distributeEvents] over what it receives: the subscriber
    sets handed to the goroutines it started, oldest first, and the set it
    is left with ([None] once it has returned). *)
Fixpoint distributeEvents (subscribers : gset chan) (events : list event)
  : list (gset chan) * option (gset chan) :=
  match events with
  | [] => ([], Some subscribers)
  | ev :: events' =>
      match distributeEvents_step subscribers ev with
      | (None, _) => ([], None)
      | (Some subscribers', started) =>
          let '(rest, final) := distributeEvents subscribers' events' in
          (match started with Some subs => subs :: rest | None => rest end, final)
      end
  end.

(** The channels the loop is asked to register, in order. *)
Definition registered (events : list event) : list chan :=
  omap (fun ev => match ev with addSubscriber_recv c => Some c | _ => None end)
    events.

(** What the loop receives for a send of a handler. *)
Definition arrives (op : chan_op) : event :=
  match op with
  | addSubscriber_send c => addSubscriber_recv c
  | removeSubscriber_send c => removeSubscriber_recv c
  end.

End Distributor.

(** * Properties of the SQL fragment *)

Section SqlFacts.

Import Sql.

Lemma holds_or3 p q : holds (or3 p q) = holds p || holds q.
Proof. by destruct p as [[]|], q as [[]|]. Qed.

Lemma holds_and3 p q : holds (and3 p q) = holds p && holds q.
Proof. by destruct p as [[]|], q as [[]|]. Qed.

Lemma holds_eq x y : holds (eq x y) = true ↔ ∃ s, x = Some s ∧ y = Some s.
Proof.
  destruct x as [a|], y as [b|]; simpl; try (split; [done | by intros (? & ? & ?)]).
  case_bool_decide; simpl; split; try done.
  - intros _. exists b. by subst.
  - intros (s & [= ->] & [= ->]). done.
Qed.

(** [x IN (l)] is TRUE exactly when [x] is not NULL and occurs in [l]. *)
Lemma holds_in x l : holds (in_ x l) = true ↔ ∃ s, x = Some s ∧ Some s ∈ l.
Proof.
  induction l as [|y l IH]; simpl.
  - split; [done | intros (s & _ & H); by apply elem_of_nil in H].
  - rewrite holds_or3, orb_true_iff, IH, holds_eq. split.
    + intros [(s & -> & ->) | (s & -> & H)]; exists s; split; try done.
      * apply list_elem_of_here.
      * by apply list_elem_of_further.
    + intros (s & -> & H). apply elem_of_cons in H as [<- | H].
      * left. by exists s.
      * right. by exists s.
Qed.

(** Membership in a list without NULLs is decided for a non-NULL value
    and UNKNOWN for NULL, unless the list is empty. *)
Lemma in_cons x y (l : list value) : in_ x (y :: l) = or3 (eq x y) (in_ x l).
Proof. reflexivity. Qed.

Lemma in_Some s (l : list string) :
  in_ (Some s) (Some <$> l) = Some (bool_decide (s ∈ l)).
Proof.
  induction l as [|y l IH]; [done|]. rewrite fmap_cons, in_cons, IH.
  unfold eq. destruct (decide (s = y)) as [->|Hne].
  - rewrite (bool_decide_eq_true_2 (y = y)) by done.
    rewrite (bool_decide_eq_true_2 (y ∈ y :: l)) by apply list_elem_of_here.
    by case_bool_decide.
  - rewrite (bool_decide_eq_false_2 (s = y)) by done.
    rewrite (bool_decide_ext (s ∈ y :: l) (s ∈ l)).
    + by case_bool_decide.
    + rewrite elem_of_cons. intuition congruence.
Qed.

Lemma in_None (l : list string) :
  in_ None (Some <$> l) = match l with [] => Some false | _ => None end.
Proof.
  induction l as [|y l IH]; [done|]. rewrite fmap_cons, in_cons, IH.
  by destruct l.
Qed.

(** Against a list without NULLs, [x NOT IN (l)] is TRUE when [l] is empty
    or [x] is a non-NULL value outside [l]. *)
Lemma holds_not_in x (l : list string) :
  holds (not_in x (Some <$> l)) = true ↔
  l = [] ∨ ∃ s, x = Some s ∧ s ∉ l.
Proof.
  unfold not_in. destruct x as [s|].
  - rewrite in_Some. simpl. destruct (decide (s ∈ l)) as [Hin|Hout].
    + rewrite bool_decide_eq_true_2 by done. simpl. split; [done|].
      intros [-> | (s' & [= <-] & ?)]; [by apply elem_of_nil in Hin | done].
    + rewrite bool_decide_eq_false_2 by done. simpl. split; [|done].
      intros _. right. by exists s.
  - rewrite in_None. destruct l; simpl; split; try done.
    + by left.
    + intros [? | (s' & ? & _)]; done.
Qed.

Lemma elem_of_where {A} (cond : A → tv) (l : list A) (a : A) :
  a ∈ where_ cond l ↔ a ∈ l ∧ holds (cond a) = true.
Proof. unfold where_. by rewrite !list_elem_of_In, filter_In. Qed.

Lemma NoDup_where {A} (cond : A → tv) (l : list A) :
  NoDup l → NoDup (where_ cond l).
Proof.
  unfold where_. rewrite !NoDup_ListNoDup. apply List.NoDup_filter.
Qed.

Lemma elem_of_inner_join {A B} (l : list A) (r : list B) on a b :
  (a, b) ∈ inner_join l r on ↔ a ∈ l ∧ b ∈ r ∧ holds (on a b) = true.
Proof.
  unfold inner_join. rewrite list_elem_of_bind. split.
  - intros (a' & H & Ha'). apply list_elem_of_bind in H as (b' & H & Hb').
    destruct (holds (on a' b')) eqn:E; [|by apply elem_of_nil in H].
    apply list_elem_of_singleton in H as [= -> ->]. done.
  - intros (Ha & Hb & E). exists a. split; [|done].
    apply list_elem_of_bind. exists b. split; [|done].
    rewrite E. apply list_elem_of_here.
Qed.

Lemma elem_of_union (l k : list value) v : v ∈ union l k ↔ v ∈ l ∨ v ∈ k.
Proof. unfold union. by rewrite elem_of_remove_dups, elem_of_app. Qed.

Lemma elem_of_intersect (l k : list value) v :
  v ∈ intersect l k ↔ v ∈ l ∧ v ∈ k.
Proof.
  unfold intersect. by rewrite elem_of_remove_dups, list_elem_of_intersection.
Qed.

(** A text without quote or NUL is the literal it is spliced into. *)
Lemma scan_literal_plain s :
  Spec.plain s = true → scan_literal (s +:+ "'") = Closed s "".
Proof.
  induction s as [|c t IH]; simpl; [done|].
  intros H. apply andb_true_iff in H as [H Ht].
  apply andb_true_iff in H as [H0 Hq].
  apply negb_true_iff in H0, Hq. rewrite H0, Hq, IH by done. done.
Qed.

End SqlFacts.

(** * Properties of data.go *)

Section RowMapper.

Import Sql Data Spec.

Lemma Field_SetString (i j : nat) s v :
  Field j (SetString i s v) =
  if bool_decide (i = j ∧ (i < NumField)%nat) then s else Field j v.
Proof.
  destruct v. unfold NumField.
  do 13 (destruct i as [|i];
         [do 13 (destruct j as [|j];
                 [case_bool_decide; simpl; first [done | lia] |]);
          rewrite bool_decide_eq_false_2 by lia; by destruct j |]).
  rewrite bool_decide_eq_false_2 by lia. done.
Qed.

Lemma Field_ext v v' :
  (∀ j : nat, (j < NumField)%nat → Field j v = Field j v') → v = v'.
Proof.
  intros H. destruct v, v'.
  pose proof (H 0) as H0. pose proof (H 1) as H1. pose proof (H 2) as H2.
  pose proof (H 3) as H3. pose proof (H 4) as H4. pose proof (H 5) as H5.
  pose proof (H 6) as H6. pose proof (H 7) as H7. pose proof (H 8) as H8.
  pose proof (H 9) as H9. pose proof (H 10) as H10. pose proof (H 11) as H11.
  pose proof (H 12) as H12. unfold NumField, Field in *. simpl in *.
  rewrite H0, H1, H2, H3, H4, H5, H6, H7, H8, H9, H10, H11, H12 by lia. done.
Qed.

Lemma Field_zero j : Field j zero = "".
Proof. do 13 (destruct j as [|j]; [done|]). by destruct j. Qed.

(** A field written by the loop holds the scanned string when the column
    is valid, and is left as it was otherwise. *)
Lemma Field_setFields (cols : list NullString) : ∀ (i : nat) (v : Configuration) (j : nat),
  (i + length cols ≤ NumField)%nat →
  Field j (setFields i cols v) =
  if bool_decide (i ≤ j)%nat then
    match cols !! (j - i) with
    | Some p => if Valid p then String' p else Field j v
    | None => Field j v
    end
  else Field j v.
Proof.
  induction cols as [|p cols IH]; intros i v j Hlen; simpl in *.
  - by case_bool_decide.
  - rewrite IH by lia.
    destruct (decide (i = j)) as [->|Hne].
    + rewrite bool_decide_eq_false_2 by lia.
      rewrite bool_decide_eq_true_2 by lia.
      rewrite Nat.sub_diag. simpl. destruct (Valid p); [|done].
      rewrite Field_SetString. rewrite bool_decide_eq_true_2; [done|].
      unfold NumField in *. lia.
    + assert (Field j (if Valid p then SetString i (String' p) v else v) = Field j v) as ->.
      { destruct (Valid p); [|done]. rewrite Field_SetString.
        by rewrite bool_decide_eq_false_2 by (intros [? _]; done). }
      destruct (decide (i ≤ j)%nat).
      * rewrite !bool_decide_eq_true_2 by lia.
        replace (j - i) with (S (j - S i)) by lia. done.
      * by rewrite !bool_decide_eq_false_2 by lia.
Qed.

(** The field read from column [j] of a scanned row. *)
Lemma Field_scanned (row : list value) (j : nat) :
  length row = NumField →
  Field j (setFields 0 (scanNullString <$> row) zero) =
  default "" (row !! j ≫= λ v, v).
Proof.
  intros Hlen. rewrite Field_setFields by (rewrite length_fmap; lia).
  rewrite bool_decide_eq_true_2 by lia. rewrite Nat.sub_0_r, list_lookup_fmap.
  destruct (row !! j) as [[s|]|]; simpl; try done; apply Field_zero.
Qed.

Lemma structFromRow_ok (row : list value) :
  length row = NumField →
  structFromRow row = (Some (setFields 0 (scanNullString <$> row) zero), None).
Proof.
  intros Hlen. unfold structFromRow, Scan. by rewrite bool_decide_eq_true_2.
Qed.

Lemma structFromRows_loop_ok (rows : list (list value)) : ∀ slice,
  Forall (λ row, length row = NumField) rows →
  structFromRows_loop rows slice =
  (slice ++ ((λ row, setFields 0 (scanNullString <$> row) zero) <$> rows), None).
Proof.
  induction rows as [|row rows IH]; intros slice Hall; simpl.
  - by rewrite app_nil_r.
  - apply Forall_cons in Hall as [Hrow Hall]. unfold Scan.
    rewrite bool_decide_eq_true_2 by done. rewrite IH by done.
    by rewrite <-app_assoc.
Qed.

Lemma scanned_denull (row : list value) :
  length row = NumField →
  setFields 0 (scanNullString <$> denull row) zero =
  setFields 0 (scanNullString <$> row) zero.
Proof.
  intros Hlen. apply Field_ext. intros j Hj.
  rewrite !Field_scanned by (unfold denull; rewrite ?length_fmap; done).
  unfold denull. rewrite list_lookup_fmap.
  assert (∀ o : option (option string),
    default "" (((λ v, Some (default "" v)) <$> o) ≫= λ v, v) =
    default "" (o ≫= λ v, v)) as Hopt by (by intros [[?|]|]).
  apply Hopt.
Qed.

Lemma scanned_select_columns a :
  setFields 0 (scanNullString <$> select_columns a) zero = configuration_of a.
Proof.
  apply Field_ext. intros j Hj. rewrite Field_scanned by done.
  unfold NumField in Hj. destruct a.
  do 13 (destruct j as [|j]; [done|]). lia.
Qed.

End RowMapper.

Section Readiness.

Import Sql Data Spec.

Lemma with_resource_holds a :
  holds (with_resource a) = true ↔ ∃ s, resource_blob_id a = Some s ∧ s ≠ "".
Proof.
  unfold with_resource. destruct (resource_blob_id a) as [s|]; simpl.
  - case_bool_decide; simpl; split; try done.
    + intros (s' & [= <-] & ?). done.
    + intros _. by exists s.
  - split; [done | by intros (? & ? & _)].
Qed.

Lemma without_resource_holds a :
  holds (without_resource a) = true ↔
  resource_blob_id a = None ∨ resource_blob_id a = Some "".
Proof.
  unfold without_resource. destruct (resource_blob_id a) as [s|]; simpl.
  - case_bool_decide; simpl; split; try done.
    + intros _. right. by subst.
    + intros [? | [= ?]]; done.
  - split; [by left | done].
Qed.

Lemma elem_of_joined_ids db col cond v :
  v ∈ joined_ids db col cond ↔
  ∃ a, a ∈ metadata_runtime_entity_metadata db ∧ id a = v ∧
       blob_available db (col a) ∧ holds (cond a) = true.
Proof.
  unfold joined_ids, blob_available, available, blob_rows.
  rewrite list_elem_of_fmap. split.
  - intros ([a [i loc]] & -> & H). apply elem_of_where in H as [H Hcond].
    apply elem_of_inner_join in H as (Ha & Hb & Hon).
    apply elem_of_map_to_list in Hb. apply holds_eq in Hon as (s & Hs & [= <-]).
    exists a. repeat split; try done. exists i. split; [done|].
    apply elem_of_dom. by exists loc.
  - intros (a & Ha & <- & (i & Hi & Hdom) & Hcond).
    apply elem_of_dom in Hdom as [loc Hloc].
    exists (a, (i, loc)). split; [done|]. apply elem_of_where. split; [|done].
    apply elem_of_inner_join. repeat split; try done.
    + by apply elem_of_map_to_list.
    + apply holds_eq. by exists i.
Qed.

(** Rows with the same key are the same row. *)
Lemma primary_key_inj rows a a' :
  primary_key rows → a ∈ rows → a' ∈ rows → id a = id a' → a = a'.
Proof.
  intros [_ Hnd]. induction rows as [|r rows IH]; intros Ha Ha' Hid.
  - by apply elem_of_nil in Ha.
  - rewrite fmap_cons in Hnd. apply NoDup_cons in Hnd as [Hr Hnd].
    apply elem_of_cons in Ha as [-> | Ha], Ha' as [-> | Ha']; try done.
    + destruct Hr. rewrite Hid. by apply list_elem_of_fmap_2.
    + destruct Hr. rewrite <-Hid. by apply list_elem_of_fmap_2.
    + by apply IH.
Qed.

(** The membership test of the outer query is the readiness predicate. *)
Lemma in_ready_ids db a :
  primary_key (metadata_runtime_entity_metadata db) →
  a ∈ metadata_runtime_entity_metadata db →
  holds (in_ (id a) (ready_ids db)) = true ↔ ready db a.
Proof.
  intros Hpk Ha. rewrite holds_in. unfold ready_ids, ready. split.
  - intros (s & Hs & H). rewrite <-Hs in H.
    apply elem_of_union in H as [H | H].
    + apply elem_of_intersect in H as [H1 H2].
      apply elem_of_joined_ids in H1 as (a1 & Ha1 & Hid1 & Hres & _).
      apply elem_of_joined_ids in H2 as (a2 & Ha2 & Hid2 & Hbean & _).
      apply (primary_key_inj _ _ _ Hpk Ha1 Ha) in Hid1 as ->.
      apply (primary_key_inj _ _ _ Hpk Ha2 Ha) in Hid2 as ->. auto.
    + apply elem_of_joined_ids in H as (a3 & Ha3 & Hid3 & Hbean & Hnone).
      apply (primary_key_inj _ _ _ Hpk Ha3 Ha) in Hid3 as ->.
      apply without_resource_holds in Hnone. split; [done|]. tauto.
  - intros [Hbean Hres].
    destruct Hpk as [Hsome _]. rewrite Forall_forall in Hsome.
    destruct (Hsome a Ha) as [s Hs]. exists s. split; [done|]. rewrite <-Hs.
    apply elem_of_union.
    destruct (decide (holds (without_resource a) = true)) as [Hw | Hw].
    + right. apply elem_of_joined_ids. by exists a.
    + left. rewrite without_resource_holds in Hw.
      destruct Hres as [? | [? | Hres]]; [tauto | tauto |].
      assert (holds (with_resource a) = true) as Hwith.
      { apply with_resource_holds. destruct Hres as (i & Hi & _).
        exists i. split; [done|]. intros ->. tauto. }
      apply elem_of_intersect. split; apply elem_of_joined_ids; by exists a.
Qed.

(** The query answers with the records of the rows its WHERE clause
    keeps, listed as the table is. *)
Lemma getReadyDeployments_rows db typeFilter :
  fault db = None →
  getReadyDeployments db typeFilter =
  (configuration_of <$>
     where_ (λ a, if bool_decide (typeFilter = "") then in_ (id a) (ready_ids db)
                  else and3 (eq (type a) (Some typeFilter))
                            (in_ (id a) (ready_ids db)))
       (metadata_runtime_entity_metadata db), None).
Proof.
  intros Hok. unfold getReadyDeployments, dataDeploymentsFromRows, structFromRows.
  rewrite Hok. 
  set (rows := if bool_decide (typeFilter = "") then _ else _).
  rewrite structFromRows_loop_ok.
  2:{ apply Forall_fmap, Forall_forall. by intros. }
  simpl. f_equal. rewrite <-list_fmap_compose.
  subst rows. case_bool_decide.
  - apply list_fmap_ext. intros. apply scanned_select_columns.
  - apply list_fmap_ext. intros. apply scanned_select_columns.
Qed.

Lemma configuration_of_inj rows a a' :
  primary_key rows → a ∈ rows → a' ∈ rows →
  configuration_of a = configuration_of a' → a = a'.
Proof.
  intros Hpk Ha Ha' Heq. apply (primary_key_inj rows); try done.
  destruct Hpk as [Hsome _]. rewrite Forall_forall in Hsome.
  destruct (Hsome a Ha) as [s Hs], (Hsome a' Ha') as [s' Hs'].
  apply (f_equal ID) in Heq. simpl in Heq. rewrite Hs, Hs' in *. simpl in Heq.
  by subst.
Qed.

(** With a type filter the row must also carry exactly that type. *)
Lemma getReadyDeployments_filtered db typeFilter a :
  fault db = None →
  primary_key (metadata_runtime_entity_metadata db) →
  a ∈ metadata_runtime_entity_metadata db →
  configuration_of a ∈ (getReadyDeployments db typeFilter).1 ↔
  (typeFilter = "" ∨ type a = Some typeFilter) ∧ ready db a.
Proof.
  intros Hok Hpk Ha. rewrite getReadyDeployments_rows by done. simpl.
  rewrite list_elem_of_fmap. split.
  - intros (a' & Heq & H). apply elem_of_where in H as [Ha' H].
    apply (configuration_of_inj _ _ _ Hpk Ha Ha') in Heq as <-.
    case_bool_decide.
    + apply in_ready_ids in H; auto.
    + rewrite holds_and3 in H. apply andb_true_iff in H as [Ht H].
      apply in_ready_ids in H; try done. apply holds_eq in Ht as (s & ? & [= <-]).
      auto.
  - intros [Ht Hr]. exists a. split; [done|]. apply elem_of_where. split; [done|].
    apply in_ready_ids in Hr; try done. case_bool_decide; [done|].
    rewrite holds_and3, Hr, andb_true_r. apply holds_eq.
    destruct Ht as [? | Ht]; [done|]. by exists typeFilter.
Qed.

End Readiness.

Section Unready.

Import Sql Data Spec.

Lemma blob_ids_keys db : blob_ids db = Some <$> (blob_rows db).*1.
Proof. unfold blob_ids. by rewrite <-list_fmap_compose. Qed.

Lemma elem_of_blob_keys db x : x ∈ (blob_rows db).*1 ↔ x ∈ available db.
Proof.
  unfold blob_rows, available. rewrite list_elem_of_fmap, elem_of_dom. split.
  - intros ([i loc] & -> & H). apply elem_of_map_to_list in H. by exists loc.
  - intros [loc H]. exists (x, loc). split; [done|]. by apply elem_of_map_to_list.
Qed.

(** A non-NULL id passes [NOT IN (SELECT b.id ...)] exactly when it is not
    available. *)
Lemma not_in_blob_ids db x :
  holds (not_in (Some x) (blob_ids db)) = true ↔ x ∉ available db.
Proof.
  rewrite blob_ids_keys, holds_not_in, <-elem_of_blob_keys. split.
  - intros [-> | (s & [= <-] & ?)]; [apply not_elem_of_nil | done].
  - intros H. right. by exists x.
Qed.

Lemma elem_of_referenced rows x :
  x ∈ referenced rows ↔
  ∃ a, a ∈ rows ∧ (bean_blob_id a = Some x ∨ resource_blob_id a = Some x).
Proof.
  unfold referenced.
  rewrite elem_of_list_to_set, elem_of_app, !list_elem_of_omap. split.
  - intros [(a & Ha & Hx) | (a & Ha & Hx)]; exists a; auto.
  - intros (a & Ha & [Hx | Hx]); [left | right]; by exists a.
Qed.

Lemma elem_of_unready_ids db x :
  Some x ∈ unready_ids db ↔
  x ∈ referenced (metadata_runtime_entity_metadata db) ∧ x ≠ "" ∧
  x ∉ available db.
Proof.
  unfold unready_ids. rewrite elem_of_where, elem_of_union, elem_of_referenced.
  rewrite !list_elem_of_fmap. simpl.
  assert (bool_decide (x = "") = false ↔ x ≠ "") as Hne.
  { by rewrite bool_decide_eq_false. }
  split.
  - intros [[(a & Hx & Ha) | (a & Hx & Ha)] Hcond];
      apply elem_of_where in Ha as [Ha Hnot]; rewrite <-Hx in Hnot;
      apply not_in_blob_ids in Hnot;
      (split; [exists a; auto | split; [|done]]);
      intros ->; by rewrite bool_decide_eq_true_2 in Hcond.
  - intros ((a & Ha & Hx) & Hx0 & Hout). split.
    + destruct Hx as [Hx | Hx]; [left | right]; exists a; (split; [done|]);
        apply elem_of_where; (split; [done|]); rewrite Hx;
        by apply not_in_blob_ids.
    + by rewrite bool_decide_eq_false_2.
Qed.

Lemma unready_ids_not_null db : Forall is_Some (unready_ids db).
Proof.
  apply Forall_forall. intros v H. unfold unready_ids in H.
  apply elem_of_where in H as [_ H]. by destruct v.
Qed.

Lemma NoDup_unready_ids db : NoDup (unready_ids db).
Proof. apply NoDup_where, NoDup_remove_dups. Qed.

(** Scanning rows without NULL into a string never fails. *)
Lemma getUnreadyBlobs_loop_ok (rows : list value) : ∀ ids,
  Forall is_Some rows →
  getUnreadyBlobs_loop rows ids = (ids ++ omap (λ v, v) rows, None).
Proof.
  induction rows as [|v rows IH]; intros ids Hall; simpl.
  - by rewrite app_nil_r.
  - apply Forall_cons in Hall as [[s ->] Hall]. simpl.
    rewrite IH by done. by rewrite <-app_assoc.
Qed.

Lemma Some_omap (rows : list value) :
  Forall is_Some rows → Some <$> omap (λ v, v) rows = rows.
Proof.
  induction 1 as [|v rows [s ->] _ IH]; [done|]. simpl. f_equal. apply IH.
Qed.

Lemma getUnreadyBlobs_ok db :
  fault db = None →
  getUnreadyBlobs db = (omap (λ v, v) (unready_ids db), None).
Proof.
  intros Hok. unfold getUnreadyBlobs. rewrite Hok.
  by rewrite getUnreadyBlobs_loop_ok by apply unready_ids_not_null.
Qed.

Lemma getUnreadyBlobs_set db :
  list_to_set (omap (λ v, v) (unready_ids db)) =@{gset string}
  referenced (metadata_runtime_entity_metadata db) ∖ {[""]} ∖ available db.
Proof.
  apply set_eq. intros x.
  rewrite elem_of_list_to_set, list_elem_of_omap, !elem_of_difference,
    elem_of_singleton.
  split.
  - intros (v & Hv & ->). apply elem_of_unready_ids in Hv. tauto.
  - intros [[? ?] ?]. exists (Some x). split; [|done].
    by apply elem_of_unready_ids.
Qed.

End Unready.


Section Claims.
Import Sql Data Spec.

(** C10 — Rows of thirteen columns are mapped without error and a NULL
    column leaves the empty string in its field; rows that differ only in
    holding NULL where the others hold the empty string are mapped to the
    very same records, by [structFromRow] and by [structFromRows]. *)
Theorem null_column_reads_as_empty_string (rows rows' : list (list value)) :
  Forall (λ row, length row = NumField) rows →
  denull <$> rows' = denull <$> rows →
  ∃ configs,
    structFromRows rows = (configs, None) ∧
    structFromRows rows' = (configs, None) ∧
    ∀ (k : nat) row, rows !! k = Some row →
      ∃ cfg, configs !! k = Some cfg ∧
        structFromRow row = (Some cfg, None) ∧
        (∀ row', denull row' = denull row → structFromRow row' = (Some cfg, None)) ∧
        ∀ i : nat, row !! i = Some None → Field i cfg = "".
Proof.
  intros Hall Hsame.
  assert (∀ row row', length row = NumField → denull row' = denull row →
            length row' = NumField ∧
            setFields 0 (scanNullString <$> row') zero
            = setFields 0 (scanNullString <$> row) zero) as Hrow.
  { intros row row' Hlen Heq.
    assert (length row' = NumField) as Hlen'.
    { apply (f_equal length) in Heq. unfold denull in Heq.
      rewrite !length_fmap in Heq. etrans; [exact Heq | exact Hlen]. }
    split; [done|].
    by rewrite <-(scanned_denull row'), Heq, scanned_denull. }
  assert (Forall (λ row, length row = NumField) rows' ∧
          (λ row, setFields 0 (scanNullString <$> row) zero) <$> rows'
          = (λ row, setFields 0 (scanNullString <$> row) zero) <$> rows)
    as [Hall' Hconfigs].
  { clear -Hall Hsame Hrow. revert rows' Hsame.
    induction Hall as [|row rows Hlen _ IH]; intros [|row' rows'] Hsame;
      try done.
    rewrite !fmap_cons in Hsame. injection Hsame as Hhead Htail.
    destruct (Hrow row row' Hlen Hhead) as [Hlen' Heq].
    destruct (IH rows' Htail) as [Hall' Htl].
    split; [by constructor|]. rewrite !fmap_cons. by rewrite Heq, Htl. }
  exists ((λ row, setFields 0 (scanNullString <$> row) zero) <$> rows).
  unfold structFromRows. split; [by rewrite structFromRows_loop_ok|].
  split; [by rewrite structFromRows_loop_ok, Hconfigs|].
  intros k row Hk. rewrite Forall_forall in Hall.
  assert (length row = NumField) as Hlen.
  { apply Hall. by eapply list_elem_of_lookup_2. }
  eexists. split; [by rewrite list_lookup_fmap, Hk|].
  split; [by apply structFromRow_ok|]. split.
  - intros row' Heq. destruct (Hrow row row' Hlen Heq) as [Hlen' Hcfg].
    by rewrite structFromRow_ok, Hcfg.
  - intros i Hi. rewrite Field_scanned by done. by rewrite Hi.
Qed.

(** A row with a NULL resource blob id against the same row with an empty
    one. *)
Lemma null_column_reads_as_empty_string_witness :
  Forall (λ row, length row = NumField) [Scenario.row_null] ∧
  denull <$> [Scenario.row_empty] = denull <$> [Scenario.row_null] ∧
  ∃ configs,
    structFromRows [Scenario.row_null] = (configs, None) ∧
    structFromRows [Scenario.row_empty] = (configs, None) ∧
    ∀ (k : nat) row, [Scenario.row_null] !! k = Some row →
      ∃ cfg, configs !! k = Some cfg ∧
        structFromRow row = (Some cfg, None) ∧
        (∀ row', denull row' = denull row → structFromRow row' = (Some cfg, None)) ∧
        ∀ i : nat, row !! i = Some None → Field i cfg = "".
Proof.
  assert (Forall (λ row, length row = NumField) [Scenario.row_null]) as Hall
    by (repeat constructor).
  assert (denull <$> [Scenario.row_empty] = denull <$> [Scenario.row_null])
    as Hsame by reflexivity.
  split; [exact Hall|]. split; [exact Hsame|].
  exact (null_column_reads_as_empty_string
           [Scenario.row_null] [Scenario.row_empty] Hall Hsame).
Defined.

(** C1 — On a healthy store whose configuration table is keyed by [id],
    the unfiltered query succeeds, returns only records of table rows, and
    returns the record of a row exactly when its bean blob is available and
    its resource blob is NULL, empty or available. *)
Theorem getReadyDeployments_ready_iff db :
  fault db = None →
  primary_key (metadata_runtime_entity_metadata db) →
  ∃ deployments,
    getReadyDeployments db "" = (deployments, None) ∧
    (∀ cfg, cfg ∈ deployments →
       ∃ a, a ∈ metadata_runtime_entity_metadata db ∧ cfg = configuration_of a) ∧
    ∀ a, a ∈ metadata_runtime_entity_metadata db →
      configuration_of a ∈ deployments ↔
      blob_available db (bean_blob_id a) ∧
      (resource_blob_id a = None ∨ resource_blob_id a = Some ""
       ∨ blob_available db (resource_blob_id a)).
Proof.
  intros Hok Hpk. exists (getReadyDeployments db "").1.
  split; [|split].
  - rewrite getReadyDeployments_rows by done. done.
  - rewrite getReadyDeployments_rows by done. simpl. intros cfg Hcfg.
    apply list_elem_of_fmap in Hcfg as (a & -> & Ha).
    apply elem_of_where in Ha as [Ha _]. by exists a.
  - intros a Ha. rewrite getReadyDeployments_filtered by done.
    unfold ready. split; [tauto|]. intros Hr. split; [by left | done].
Qed.

(** The scenario's store is healthy and keyed by [id]. *)
Lemma getReadyDeployments_ready_iff_witness :
  fault Scenario.store = None ∧
  primary_key (metadata_runtime_entity_metadata Scenario.store) ∧
  ∃ deployments,
    getReadyDeployments Scenario.store "" = (deployments, None) ∧
    (∀ cfg, cfg ∈ deployments →
       ∃ a, a ∈ metadata_runtime_entity_metadata Scenario.store ∧
            cfg = configuration_of a) ∧
    ∀ a, a ∈ metadata_runtime_entity_metadata Scenario.store →
      configuration_of a ∈ deployments ↔
      blob_available Scenario.store (bean_blob_id a) ∧
      (resource_blob_id a = None ∨ resource_blob_id a = Some ""
       ∨ blob_available Scenario.store (resource_blob_id a)).
Proof.
  assert (primary_key (metadata_runtime_entity_metadata Scenario.store)) as Hpk.
  { split.
    - repeat constructor; by eexists.
    - apply (bool_decide_unpack _). vm_compute. exact I. }
  split; [reflexivity|]. split; [exact Hpk|].
  exact (getReadyDeployments_ready_iff Scenario.store eq_refl Hpk).
Defined.

(** The scenario of the specification: only A is ready. *)
Example scenario_ready :
  getReadyDeployments Scenario.store "" =
  ([configuration_of Scenario.config_A], None).
Proof. vm_compute. reflexivity. Qed.

(** C4 — On a healthy store the query succeeds and its ids, free of
    duplicates, form the set of referenced blob ids minus the empty id
    minus the available ids; with the same configurations and a larger
    available set the answer can only shrink. *)
Theorem getUnreadyBlobs_is_difference db :
  fault db = None →
  ∃ ids,
    getUnreadyBlobs db = (ids, None) ∧ NoDup ids ∧
    list_to_set ids =@{gset string}
      referenced (metadata_runtime_entity_metadata db) ∖ {[""]} ∖ available db ∧
    ∀ db',
      fault db' = None →
      metadata_runtime_entity_metadata db' = metadata_runtime_entity_metadata db →
      available db ⊆ available db' →
      ∃ ids', getUnreadyBlobs db' = (ids', None) ∧
              list_to_set ids' ⊆@{gset string} list_to_set ids.
Proof.
  intros Hok. exists (omap (λ v, v) (unready_ids db)).
  split; [by apply getUnreadyBlobs_ok|]. split; [|split].
  - apply (NoDup_fmap_1 Some). rewrite Some_omap by apply unready_ids_not_null.
    apply NoDup_unready_ids.
  - apply getUnreadyBlobs_set.
  - intros db' Hok' Hrows Hsub. exists (omap (λ v, v) (unready_ids db')).
    split; [by apply getUnreadyBlobs_ok|].
    rewrite !getUnreadyBlobs_set, Hrows. intros x.
    rewrite !elem_of_difference. intros [Hx Hout]. split; [done|].
    intros Hin. apply Hout, Hsub, Hin.
Qed.

(** The scenario's store is healthy. *)
Lemma getUnreadyBlobs_is_difference_witness :
  fault Scenario.store = None ∧
  ∃ ids,
    getUnreadyBlobs Scenario.store = (ids, None) ∧ NoDup ids ∧
    list_to_set ids =@{gset string}
      referenced (metadata_runtime_entity_metadata Scenario.store) ∖ {[""]}
        ∖ available Scenario.store ∧
    ∀ db',
      fault db' = None →
      metadata_runtime_entity_metadata db'
        = metadata_runtime_entity_metadata Scenario.store →
      available Scenario.store ⊆ available db' →
      ∃ ids', getUnreadyBlobs db' = (ids', None) ∧
              list_to_set ids' ⊆@{gset string} list_to_set ids.
Proof.
  split; [reflexivity|].
  exact (getUnreadyBlobs_is_difference Scenario.store eq_refl).
Defined.

(** The scenario of the specification: b2 and r2 are still missing. *)
Example scenario_unready :
  (getUnreadyBlobs Scenario.store).2 = None ∧
  list_to_set (getUnreadyBlobs Scenario.store).1 =@{gset string} {["b2"; "r2"]}.
Proof. split; by vm_compute. Qed.

End Claims.

(** * Properties of api.go *)

Section Counter.

Import Api.

Lemma wrap64_id z : (minInt64 ≤ z ≤ maxInt64)%Z → wrap64 z = z.
Proof.
  unfold wrap64, minInt64, maxInt64. intros H.
  rewrite Z.mod_small by lia. lia.
Qed.

Lemma wrap64_succ z : wrap64 (wrap64 z + 1) = wrap64 (z + 1).
Proof.
  unfold wrap64.
  replace ((z - minInt64) `mod` 2 ^ 64 + minInt64 + 1 - minInt64)%Z
    with ((z - minInt64) `mod` 2 ^ 64 + 1)%Z by lia.
  rewrite Zplus_mod_idemp_l. f_equal. f_equal. lia.
Qed.

(** The counter after [n] settles is the start value plus [n], wrapped. *)
Lemma eTag_after_wrap n e :
  (minInt64 ≤ e ≤ maxInt64)%Z → eTag_after n e = wrap64 (e + Z.of_N n).
Proof.
  intros He. unfold eTag_after. induction n as [|n IH] using N.peano_ind.
  - simpl. rewrite Z.add_0_r. by rewrite wrap64_id.
  - rewrite N.iter_succ, IH, wrap64_succ. f_equal. lia.
Qed.

Lemma eTag_incrementETag W : eTag (incrementETag W).1 = eTag_after 1 (eTag W).
Proof. reflexivity. Qed.

Lemma FormatInt_inj a b : FormatInt a = FormatInt b → a = b.
Proof. unfold FormatInt. apply (inj pretty). Qed.

Lemma eTag_deliver g W subs :
  eTag (deliver g W subs).1 = wrap64 (eTag W + 1).
Proof. unfold deliver. simpl. by destruct (g _). Qed.

Lemma sends_deliver g W subs c result :
  (c, result) ∈ (deliver g W subs).2 →
  c ∈ subs ∧
  result = mkDeploymentsResult (g (db W)).1 (g (db W)).2
             (FormatInt (wrap64 (eTag W + 1))).
Proof.
  unfold deliver. simpl. destruct (g (db W)) as [deployments err]. simpl.
  intros H. apply list_elem_of_fmap in H as (s & [= -> ->] & Hs).
  by apply elem_of_elements in Hs.
Qed.

Lemma settles_cons g W subs batches :
  settles g W (subs :: batches) =
  ((settles g (deliver g W subs).1 batches).1,
   (deliver g W subs).2 :: (settles g (deliver g W subs).1 batches).2).
Proof.
  simpl. destruct (deliver g W subs) as [W' sends]. simpl.
  by destruct (settles g W' batches).
Qed.

(** Below the wrap the counter after a run is the start value plus the
    number of settles. *)
Lemma eTag_settles g batches : ∀ W,
  (minInt64 ≤ eTag W)%Z → (eTag W + Z.of_nat (length batches) ≤ maxInt64)%Z →
  eTag (settles g W batches).1 = (eTag W + Z.of_nat (length batches))%Z.
Proof.
  induction batches as [|subs batches IH]; intros W Hlo Hhi.
  - simpl. lia.
  - rewrite settles_cons. simpl in *.
    assert (eTag (deliver g W subs).1 = eTag W + 1)%Z as Hstep.
    { rewrite eTag_deliver. apply wrap64_id. lia. }
    rewrite IH; rewrite Hstep; lia.
Qed.

(** Every result sent by settle number [k] (from zero) carries the start
    value plus [k + 1]. *)
Lemma token_settles g batches : ∀ W (k : nat) sends c result,
  (minInt64 ≤ eTag W)%Z → (eTag W + Z.of_nat (length batches) ≤ maxInt64)%Z →
  (settles g W batches).2 !! k = Some sends → (c, result) ∈ sends →
  eTag' result = FormatInt (eTag W + Z.of_nat k + 1).
Proof.
  induction batches as [|subs batches IH]; intros W k sends c result Hlo Hhi Hk Hin.
  - done.
  - rewrite settles_cons in Hk. simpl in *.
    assert (eTag (deliver g W subs).1 = eTag W + 1)%Z as Hstep.
    { rewrite eTag_deliver. apply wrap64_id. lia. }
    destruct k as [|k]; simpl in Hk.
    + injection Hk as <-. apply sends_deliver in Hin as [_ ->]. simpl.
      rewrite wrap64_id by lia. f_equal. lia.
    + rewrite (IH (deliver g W subs).1 k sends c result); try done.
      * rewrite Hstep. f_equal. lia.
      * rewrite Hstep. lia.
      * rewrite Hstep. lia.
Qed.

Lemma eTag_after_succ n e :
  eTag_after (N.succ n) e = eTag_after n (wrap64 (e + 1)).
Proof. unfold eTag_after. by rewrite N.iter_succ_r. Qed.

(** The counter reached by a run of settles is the iterated increment,
    wrap included. *)
Lemma eTag_settles_after g batches : ∀ W,
  eTag (settles g W batches).1 = eTag_after (N.of_nat (length batches)) (eTag W).
Proof.
  induction batches as [|subs batches IH]; intros W; [done|].
  rewrite settles_cons. cbn [fst length]. rewrite IH, eTag_deliver.
  by rewrite Nat2N.inj_succ, eTag_after_succ.
Qed.

End Counter.

Section LongPoll.

Import Api.

Lemma StatusCode_writeError w code c reason :
  status w = None → StatusCode (writeError w code c reason) = code.
Proof. intros H. unfold writeError, Write, WriteHeader. by rewrite H. Qed.

Lemma StatusCode_sendDeployments W w dataDeps eTag :
  status w = None → StatusCode (sendDeployments W w dataDeps eTag) = StatusOK.
Proof.
  intros H. unfold sendDeployments, Write, WriteHeader, Header_Set.
  by rewrite H.
Qed.

Lemma StatusCode_sendReadyDeployments g W :
  StatusCode (sendReadyDeployments g W newResponseWriter) = StatusOK ∨
  StatusCode (sendReadyDeployments g W newResponseWriter)
    = StatusInternalServerError.
Proof.
  unfold sendReadyDeployments. destruct (g (db W)) as [deployments [e|]].
  - right. by apply StatusCode_writeError.
  - left. by apply StatusCode_sendDeployments.
Qed.

(** A request that is not rejected for its [block] value is answered 200,
    304 or 500. *)
Lemma StatusCode_accepted g W r fresh sel :
  (Get "block" (query r) = "" ∨ (Atoi (Get "block" (query r))).2 = None) →
  StatusCode (apiGetCurrentDeployments g W r fresh sel).1 ∈
    [StatusOK; StatusNotModified; StatusInternalServerError].
Proof.
  intros Hb. unfold apiGetCurrentDeployments.
  set (parsed := if bool_decide (Get "block" (query r) ≠ "") then _ else _).
  assert (parsed.2 = None) as Hparsed.
  { subst parsed. case_bool_decide; [|done]. by destruct Hb. }
  destruct parsed as [timeout [e|]]; [done|]. clear Hparsed.
  pose proof (StatusCode_sendReadyDeployments g W) as Hready.
  assert (∀ x, x = StatusOK ∨ x = StatusInternalServerError →
               x ∈ [StatusOK; StatusNotModified; StatusInternalServerError]) as Hin.
  { intros x [-> | ->]; rewrite !elem_of_cons; auto. }
  destruct (bool_decide (getETag W = _) && _); simpl.
  { rewrite !elem_of_cons. auto. }
  destruct (bool_decide (getETag W ≠ _)); simpl; [by apply Hin|].
  destruct (bool_decide (0 < timeout)%Z && _); simpl.
  - destruct sel as [result|]; simpl.
    + destruct (err result); apply Hin.
      * right. by apply StatusCode_writeError.
      * left. by apply StatusCode_sendDeployments.
    + destruct (bool_decide _); simpl; [|by apply Hin].
      rewrite !elem_of_cons. auto.
  - destruct (bool_decide _); simpl; [|by apply Hin].
    rewrite !elem_of_cons. auto.
Qed.

(** A minus sign followed by digits is accepted down to the smallest
    [int]. *)
Lemma Atoi_minus s n :
  s ≠ "" → digits s 0 = Some n → (0 ≤ n ≤ 2 ^ 63)%Z →
  Atoi (String "-" s) = ((- n)%Z, None).
Proof.
  intros Hs Hd Hn. unfold Atoi. destruct s as [|c t]; [done|].
  rewrite Hd. rewrite bool_decide_eq_true_2; [done|].
  unfold minInt64, maxInt64. lia.
Qed.

End LongPoll.

Section Blob.

Import Api Spec.

Lemma getLocalFSLocation_plain other d blobId :
  plain blobId = true → Data.fault d = None →
  Data.getLocalFSLocation other d blobId =
  (default "" (Data.apid_blob_available d !! blobId), None).
Proof.
  intros Hplain Hok. unfold Data.getLocalFSLocation, Data.query_local_fs_location.
  rewrite Hok, scan_literal_plain by done.
  by destruct (Data.apid_blob_available d !! blobId).
Qed.

Lemma getLocalFSLocation_fault other d blobId e :
  Data.fault d = Some e → Data.getLocalFSLocation other d blobId = ("", Some e).
Proof.
  intros Hf. unfold Data.getLocalFSLocation, Data.query_local_fs_location.
  by rewrite Hf.
Qed.

(** The blob handler answers 200 or 500 and nothing else. *)
Lemma apiReturnBlobData_status other W r :
  StatusCode (apiReturnBlobData other W r) = StatusOK ∨
  StatusCode (apiReturnBlobData other W r) = StatusInternalServerError.
Proof.
  unfold apiReturnBlobData.
  destruct (getLocalFSLocation other W _) as [fs [e|]].
  - right. by apply StatusCode_writeError.
  - destruct (ReadFile W fs) as [byte [e|]].
    + right. by apply StatusCode_writeError.
    + left. unfold io_Copy. by case_bool_decide.
Qed.

Lemma apiReturnBlobData_never_404 other W r :
  StatusCode (apiReturnBlobData other W r) ≠ StatusNotFound.
Proof.
  by destruct (apiReturnBlobData_status other W r) as [-> | ->].
Qed.

(** An id without a recorded path: the lookup answers the empty path with
    no error, the read of the empty path fails, the answer is 500. *)
Lemma apiReturnBlobData_unmapped other W r blobId :
  vars r !! "blobId" = Some blobId → plain blobId = true →
  Data.fault (db W) = None → Data.apid_blob_available (db W) !! blobId = None →
  StatusCode (apiReturnBlobData other W r) = StatusInternalServerError.
Proof.
  intros Hvar Hplain Hok Hnone. unfold apiReturnBlobData, getLocalFSLocation.
  rewrite Hvar. simpl. rewrite getLocalFSLocation_plain, Hnone by done. simpl.
  by apply StatusCode_writeError.
Qed.

(** A recorded path whose file cannot be read: 500. *)
Lemma apiReturnBlobData_unreadable other W r blobId fs :
  vars r !! "blobId" = Some blobId → plain blobId = true →
  Data.fault (db W) = None → Data.apid_blob_available (db W) !! blobId = Some fs →
  (ReadFile W fs).2 ≠ None →
  StatusCode (apiReturnBlobData other W r) = StatusInternalServerError.
Proof.
  intros Hvar Hplain Hok Hfs Hread. unfold apiReturnBlobData, getLocalFSLocation.
  rewrite Hvar. simpl. rewrite getLocalFSLocation_plain, Hfs by done. simpl.
  destruct (ReadFile W fs) as [byte [e|]]; [|done].
  by apply StatusCode_writeError.
Qed.

(** A recorded path whose file is read: 200 and the bytes of the file. *)
Lemma apiReturnBlobData_streams other W r blobId fs byte :
  vars r !! "blobId" = Some blobId → plain blobId = true →
  Data.fault (db W) = None → Data.apid_blob_available (db W) !! blobId = Some fs →
  ReadFile W fs = (byte, None) →
  StatusCode (apiReturnBlobData other W r) = StatusOK ∧
  raw_body (body (apiReturnBlobData other W r)) = Some byte.
Proof.
  intros Hvar Hplain Hok Hfs Hread. unfold apiReturnBlobData, getLocalFSLocation.
  rewrite Hvar. simpl. rewrite getLocalFSLocation_plain, Hfs by done. simpl.
  rewrite Hread. unfold io_Copy. case_bool_decide as Hb.
  { subst byte. split; reflexivity. }
  split; [reflexivity|]. simpl. f_equal. clear.
  induction byte as [|c t IH]; [reflexivity|].
  change (String c (t +:+ "") = String c t). by rewrite IH.
Qed.

(** A storage failure during the lookup: 500. *)
Lemma apiReturnBlobData_storage_failure other W r e :
  Data.fault (db W) = Some e →
  StatusCode (apiReturnBlobData other W r) = StatusInternalServerError.
Proof.
  intros Hf. unfold apiReturnBlobData, getLocalFSLocation.
  rewrite (getLocalFSLocation_fault _ _ _ e) by done.
  by apply StatusCode_writeError.
Qed.

End Blob.

Section Tracker.

Import Data Spec.

Lemma fault_updateLocalFsLocation d blobId location :
  fault d = None → fault (updateLocalFsLocation d blobId location).1 = None.
Proof. intros H. unfold updateLocalFsLocation. by rewrite H. Qed.

Lemma updateLocalFsLocation_ok d blobId location :
  fault d = None → (updateLocalFsLocation d blobId location).2 = None.
Proof. intros H. unfold updateLocalFsLocation. by rewrite H. Qed.

(** After a record the id is mapped: to the path it already had, or else
    to the path just given. *)
Lemma lookup_updateLocalFsLocation d blobId location :
  fault d = None →
  apid_blob_available (updateLocalFsLocation d blobId location).1 !! blobId =
  Some (default location (apid_blob_available d !! blobId)).
Proof.
  intros H. unfold updateLocalFsLocation, insert_or_ignore. rewrite H. simpl.
  destruct (apid_blob_available d !! blobId) eqn:E; simpl; [done|].
  by rewrite lookup_insert_eq.
Qed.

(** Recording twice is recording once: for an id that can be spliced into
    the lookup statement unchanged, both calls succeed and the lookup
    answers the path of the first call. *)
Lemma updateLocalFsLocation_first_writer_wins other d blobId first second :
  plain blobId = true → fault d = None → apid_blob_available d !! blobId = None →
  let d1 := updateLocalFsLocation d blobId first in
  let d2 := updateLocalFsLocation d1.1 blobId second in
  d1.2 = None ∧ d2.2 = None ∧
  getLocalFSLocation other d1.1 blobId = (first, None) ∧
  getLocalFSLocation other d2.1 blobId = (first, None) ∧
  apid_blob_available d2.1 = apid_blob_available d1.1.
Proof.
  intros Hplain Hok Hnone d1 d2.
  assert (fault d1.1 = None) as Hok1 by by apply fault_updateLocalFsLocation.
  assert (fault d2.1 = None) as Hok2 by by apply fault_updateLocalFsLocation.
  assert (apid_blob_available d1.1 !! blobId = Some first) as H1.
  { subst d1. rewrite lookup_updateLocalFsLocation, Hnone by done. done. }
  assert (apid_blob_available d2.1 = apid_blob_available d1.1) as H2.
  { subst d2. unfold updateLocalFsLocation at 1, insert_or_ignore.
    by rewrite Hok1, H1. }
  repeat split.
  - by apply updateLocalFsLocation_ok.
  - by apply updateLocalFsLocation_ok.
  - by rewrite getLocalFSLocation_plain, H1.
  - by rewrite getLocalFSLocation_plain, H2, H1.
  - done.
Qed.

End Tracker.

Section ApiClaims.

Import Api Spec.

(** What a settle does: the loop hands its whole subscriber set to the
    goroutine and continues with an empty one; the goroutine advances the
    counter once and sends every subscriber of that set the answer of
    [getUnreadyDeployments] with the new token. *)
Lemma settle_sends_unready_to_all g W subs :
  distributeEvents_step subs (deliverDeployments_recv true) = (Some ∅, Some subs) ∧
  eTag (deliver g W subs).1 = wrap64 (eTag W + 1) ∧
  ∀ c result,
    (c, result) ∈ (deliver g W subs).2 ↔
    c ∈ subs ∧
    result = mkDeploymentsResult (g (db W)).1 (g (db W)).2
               (FormatInt (wrap64 (eTag W + 1))).
Proof.
  split; [done|]. split; [apply eTag_deliver|]. intros c result. split.
  - apply sends_deliver.
  - intros [Hc ->]. unfold deliver. simpl.
    destruct (g (db W)) as [deployments err]. simpl.
    apply list_elem_of_fmap. exists c. split; [done|].
    by apply elem_of_elements.
Qed.

(** C2 — On a settle with one waiter, where the ready query answers A and
    the unready query answers B: the loop clears its waiter set, the token
    goes from 0 to 1, and the waiter is sent B with token 1, while an
    immediate request at the same moment is answered with A. *)
Theorem settle_delivers_the_unready_query :
  distributeEvents_step {[7]} (deliverDeployments_recv true)
    = (Some ∅, Some {[7]}) ∧
  eTag (deliver Scenario.unready_query Scenario.world {[7]}).1 = 1%Z ∧
  (deliver Scenario.unready_query Scenario.world {[7]}).2
    = [(7, mkDeploymentsResult [Scenario.deployment_B] None "1")] ∧
  BlobId <$> rendered (sendReadyDeployments Scenario.ready_query Scenario.world
                         newResponseWriter) = ["b1"].
Proof. repeat split; by vm_compute. Qed.

(** C3 — A blob id without a recorded path is answered 500, not 404:
    b2 is not recorded in the scenario's store. *)
Theorem unmapped_blob_is_answered_500 other :
  Data.apid_blob_available (db Scenario.world) !! "b2" = None ∧
  StatusCode (apiReturnBlobData other Scenario.world (Scenario.blob_request "b2"))
    = StatusInternalServerError.
Proof. split; by vm_compute. Qed.

(** C5 — A blob id holding a doubled quote is recorded twice without
    error and stays mapped to the first path, yet its lookup reads another
    id and answers the empty path. *)
Theorem lookup_misses_quoted_blob_id other :
  let d0 := Data.mkDB [] ∅ None in
  let d1 := Data.updateLocalFsLocation d0 "a''b" "/first" in
  let d2 := Data.updateLocalFsLocation d1.1 "a''b" "/second" in
  d1.2 = None ∧ d2.2 = None ∧
  Data.apid_blob_available d2.1 !! "a''b" = Some "/first" ∧
  Data.getLocalFSLocation other d2.1 "a''b" = ("", None).
Proof. repeat split; by vm_compute. Qed.

(** C9 — The created and updated timestamps of a deployment are copied
    into the response as they are: two source formats of one instant are
    rendered as two different strings. *)
Theorem timestamps_are_rendered_verbatim :
  let w := sendDeployments Scenario.world newResponseWriter
             [Scenario.deployment_A] "1" in
  details_Created <$> rendered w = ["2017-04-05 04:47:36.462 +0000 UTC"] ∧
  details_Updated <$> rendered w = ["2017-04-05T04:47:36.462Z"].
Proof. split; by vm_compute. Qed.

(** Whatever the deployments, their timestamps reach the response
    unchanged. *)
Lemma rendered_timestamps W dataDeps eTag :
  details_Created <$> rendered (sendDeployments W newResponseWriter dataDeps eTag)
    = Created <$> dataDeps ∧
  details_Updated <$> rendered (sendDeployments W newResponseWriter dataDeps eTag)
    = Updated <$> dataDeps.
Proof.
  unfold rendered, sendDeployments. simpl.
  split; rewrite <-list_fmap_compose; by apply list_fmap_ext.
Qed.

(** C6 (as amended) — In a run of settles that stays below the wrap of the
    64-bit counter, the token after [j] settles is smaller than the token
    after [k] settles whenever [j < k], the two token strings differ, and
    every result sent by settle [k] carries the token reached after [k]
    settles. *)
Theorem version_token_increases_below_wrap g W batches (j k : nat) :
  (minInt64 ≤ eTag W)%Z →
  (eTag W + Z.of_nat (length batches) ≤ maxInt64)%Z →
  j < k ≤ length batches →
  (eTag (settles g W (take j batches)).1
     < eTag (settles g W (take k batches)).1)%Z ∧
  getETag (settles g W (take j batches)).1
    ≠ getETag (settles g W (take k batches)).1 ∧
  ∀ sends c result,
    (settles g W batches).2 !! (k - 1) = Some sends → (c, result) ∈ sends →
    eTag' result = getETag (settles g W (take k batches)).1.
Proof.
  intros Hlo Hhi Hjk.
  assert (∀ n : nat, n ≤ length batches →
            eTag (settles g W (take n batches)).1 = (eTag W + Z.of_nat n)%Z) as Hn.
  { intros n Hle. rewrite eTag_settles; rewrite ?length_take; lia. }
  rewrite (Hn j), (Hn k) by lia. split; [lia|]. split.
  - unfold getETag. rewrite (Hn j), (Hn k) by lia.
    intros Heq. apply FormatInt_inj in Heq. lia.
  - intros sends c result Hk Hin. unfold getETag. rewrite (Hn k) by lia.
    rewrite (token_settles g batches W (k - 1) sends c result) by done.
    f_equal. lia.
Qed.

(** Three settles of a fresh process, compared after the first and after
    the third. *)
Lemma version_token_increases_below_wrap_witness :
  (minInt64 ≤ eTag Scenario.world)%Z ∧
  (eTag Scenario.world + Z.of_nat (length Scenario.batches) ≤ maxInt64)%Z ∧
  1 < 3 ≤ length Scenario.batches ∧
  (eTag (settles Scenario.unready_query Scenario.world
           (take 1 Scenario.batches)).1
     < eTag (settles Scenario.unready_query Scenario.world
               (take 3 Scenario.batches)).1)%Z ∧
  getETag (settles Scenario.unready_query Scenario.world
             (take 1 Scenario.batches)).1
    ≠ getETag (settles Scenario.unready_query Scenario.world
                 (take 3 Scenario.batches)).1 ∧
  ∀ sends c result,
    (settles Scenario.unready_query Scenario.world Scenario.batches).2
      !! (3 - 1) = Some sends →
    (c, result) ∈ sends →
    eTag' result
    = getETag (settles Scenario.unready_query Scenario.world
                 (take 3 Scenario.batches)).1.
Proof.
  assert (minInt64 ≤ eTag Scenario.world)%Z as Hlo by (by vm_compute).
  assert (eTag Scenario.world + Z.of_nat (length Scenario.batches)
            ≤ maxInt64)%Z as Hhi by (by vm_compute).
  assert (1 < 3 ≤ length Scenario.batches) as Hjk
    by (simpl; lia).
  split; [exact Hlo|]. split; [exact Hhi|]. split; [exact Hjk|].
  exact (version_token_increases_below_wrap Scenario.unready_query
           Scenario.world Scenario.batches 1 3 Hlo Hhi Hjk).
Defined.

(** C6 (counterexample) — After 2^63 - 1 settles of a fresh process the
    counter holds the largest 64-bit value; the next settle wraps it to the
    smallest one, so the new token is below the one before it. And far
    below the wrap one token goes with two snapshots: the first settle
    sends its waiter the list B under token 1, and a request answered at
    once after that settle gets the list A under the same token 1. *)
Lemma version_token_wraps_and_goes_with_two_snapshots :
  (eTag_after (2 ^ 63 - 1) 0 = maxInt64 ∧
   eTag_after (2 ^ 63) 0 = minInt64 ∧
   (eTag_after (2 ^ 63) 0 < eTag_after (2 ^ 63 - 1) 0)%Z ∧
   (incrementETag (mkWorld maxInt64 Scenario.store ∅ ∅)).2
     = "-9223372036854775808") ∧
  (deliver Scenario.unready_query Scenario.world {[7]}).2
    = [(7, mkDeploymentsResult [Scenario.deployment_B] None "1")] ∧
  header (sendDeployments Scenario.world newResponseWriter
            [Scenario.deployment_B] "1") !! "ETag" = Some "1" ∧
  BlobId <$> rendered (sendDeployments Scenario.world newResponseWriter
                         [Scenario.deployment_B] "1") = ["b2"] ∧
  header (sendReadyDeployments Scenario.ready_query
            (deliver Scenario.unready_query Scenario.world {[7]}).1
            newResponseWriter) !! "ETag" = Some "1" ∧
  BlobId <$> rendered (sendReadyDeployments Scenario.ready_query
                         (deliver Scenario.unready_query Scenario.world {[7]}).1
                         newResponseWriter) = ["b1"].
Proof.
  split.
  - rewrite !eTag_after_wrap by (by vm_compute).
    repeat split; by vm_compute.
  - repeat split; by vm_compute.
Qed.

(** C7 (as amended) — The answer is 400 exactly when the [block] value is
    not empty and [strconv.Atoi] rejects it. *)
Theorem bad_request_iff_block_rejected g W r fresh sel :
  StatusCode (apiGetCurrentDeployments g W r fresh sel).1 = StatusBadRequest ↔
  Get "block" (query r) ≠ "" ∧ (Atoi (Get "block" (query r))).2 ≠ None.
Proof.
  split.
  - intros H400.
    assert (StatusBadRequest ∉
              [StatusOK; StatusNotModified; StatusInternalServerError]) as Hout.
    { rewrite !not_elem_of_cons. repeat split; try done. apply not_elem_of_nil. }
    destruct (decide (Get "block" (query r) = "")) as [Hb | Hb].
    + destruct Hout. rewrite <-H400. apply StatusCode_accepted. by left.
    + split; [done|]. intros Hok.
      destruct Hout. rewrite <-H400. apply StatusCode_accepted. by right.
  - intros [Hb Hrej]. unfold apiGetCurrentDeployments.
    rewrite bool_decide_eq_true_2 by done.
    destruct (Atoi (Get "block" (query r))) as [timeout [e|]]; [|done].
    by apply StatusCode_writeError.
Qed.

(** Values that are rejected: text that is no number, and a number beyond
    the range of [int]. *)
Example bad_block_values :
  StatusCode (apiGetCurrentDeployments Scenario.ready_query Scenario.world
                (Scenario.poll_request "soon" "0") 0 timed_out).1
    = StatusBadRequest ∧
  StatusCode (apiGetCurrentDeployments Scenario.ready_query Scenario.world
                (Scenario.poll_request "9223372036854775808" "0") 0 timed_out).1
    = StatusBadRequest.
Proof. split; by vm_compute. Qed.

(** C7 (counterexample) — [block=-1] with a matching [If-None-Match] is
    parsed as minus one second and answered 304; a [block] parameter that
    is present with an empty value is answered 304 as well. *)
Lemma negative_block_is_accepted :
  Atoi "-1" = ((-1)%Z, None) ∧
  StatusCode (apiGetCurrentDeployments Scenario.ready_query Scenario.world
                (Scenario.poll_request "-1" "0") 0 timed_out).1
    = StatusNotModified ∧
  StatusCode (apiGetCurrentDeployments Scenario.ready_query Scenario.world
                (Scenario.poll_request "-1" "0") 0 timed_out).1
    ≠ StatusBadRequest ∧
  StatusCode (apiGetCurrentDeployments Scenario.ready_query Scenario.world
                (Scenario.poll_request "" "0") 0 timed_out).1
    ≠ StatusBadRequest.
Proof. repeat split; by vm_compute. Qed.

(** C8 — A request whose [If-None-Match] equals the current token and
    whose [block] value is absent or zero is answered 304 with no header
    and no body, and sends nothing on the subscriber channels. *)
Theorem matching_token_without_wait_is_not_modified g W r fresh sel :
  Get "If-None-Match" (headers r) = getETag W →
  Get "block" (query r) = "" ∨ Atoi (Get "block" (query r)) = (0%Z, None) →
  apiGetCurrentDeployments g W r fresh sel
  = (mkResponseWriter (Some StatusNotModified) ∅ [], []).
Proof.
  intros Hmatch Hblock. unfold apiGetCurrentDeployments.
  assert ((if bool_decide (Get "block" (query r) ≠ "")
           then Atoi (Get "block" (query r)) else (0%Z, None)) = (0%Z, None)) as ->.
  { case_bool_decide as Hb; [|done]. by destruct Hblock. }
  rewrite Hmatch. by rewrite !bool_decide_eq_true_2 by done.
Qed.

(** A fresh process, whose token is 0, asked with [block=0] and
    [If-None-Match: 0]. *)
Lemma matching_token_without_wait_is_not_modified_witness :
  Get "If-None-Match" (headers (Scenario.poll_request "0" "0"))
    = getETag Scenario.world ∧
  (Get "block" (query (Scenario.poll_request "0" "0")) = "" ∨
   Atoi (Get "block" (query (Scenario.poll_request "0" "0"))) = (0%Z, None)) ∧
  apiGetCurrentDeployments Scenario.ready_query Scenario.world
    (Scenario.poll_request "0" "0") 5 timed_out
  = (mkResponseWriter (Some StatusNotModified) ∅ [], []).
Proof.
  assert (Get "If-None-Match" (headers (Scenario.poll_request "0" "0"))
            = getETag Scenario.world) as Hmatch by (by vm_compute).
  assert (Get "block" (query (Scenario.poll_request "0" "0")) = "" ∨
          Atoi (Get "block" (query (Scenario.poll_request "0" "0")))
            = (0%Z, None)) as Hblock by (right; by vm_compute).
  split; [exact Hmatch|]. split; [exact Hblock|].
  exact (matching_token_without_wait_is_not_modified Scenario.ready_query
           Scenario.world (Scenario.poll_request "0" "0") 5 timed_out
           Hmatch Hblock).
Defined.

End ApiClaims.

(** * Further properties of data.go *)

Section SingleRow.

Import Sql Data Spec DataRow.

(** The rows a key selects: the row itself when the key is one of the
    table, none otherwise. *)
Lemma where_id_found rows a i :
  primary_key rows → a ∈ rows → Data.id a = Some i →
  where_ (λ a', eq (Data.id a') (Some i)) rows = [a].
Proof.
  intros [_ Hnd]. induction rows as [|r rows IH]; intros Ha Hid.
  - by apply elem_of_nil in Ha.
  - rewrite fmap_cons in Hnd. apply NoDup_cons in Hnd as [Hr Hnd].
    assert (∀ r', r' ∈ rows → Data.id r' = Some i →
              where_ (λ a', eq (Data.id a') (Some i)) rows ≠ []) as Hne.
    { intros r' Hr' Hid' Hnil.
      assert (r' ∈ where_ (λ a', eq (Data.id a') (Some i)) rows) as Hin.
      { apply elem_of_where. split; [done|]. apply holds_eq. by exists i. }
      rewrite Hnil in Hin. by apply elem_of_nil in Hin. }
    unfold where_ in *. simpl.
    destruct (holds (eq (Data.id r) (Some i))) eqn:E.
    + apply holds_eq in E as (s & Hs & [= <-]).
      apply elem_of_cons in Ha as [-> | Ha].
      * f_equal. destruct (List.filter _ rows) as [|r' l] eqn:F; [done|].
        assert (r' ∈ r' :: l) as Hin by apply list_elem_of_here.
        rewrite <-F in Hin. apply list_elem_of_In, filter_In in Hin as [Hin E'].
        apply holds_eq in E' as (s' & Hs' & [= <-]).
        destruct Hr. rewrite Hs, <-Hs'. apply list_elem_of_fmap_2.
        by apply list_elem_of_In.
      * destruct Hr. rewrite Hs, <-Hid. by apply list_elem_of_fmap_2.
    + apply elem_of_cons in Ha as [-> | Ha].
      * assert (holds (eq (Data.id r) (Some i)) = true) as E'
          by (apply holds_eq; by exists i).
        congruence.
      * by apply IH.
Qed.

Lemma where_id_missing rows i :
  Some i ∉ Data.id <$> rows →
  where_ (λ a', eq (Data.id a') (Some i)) rows = [].
Proof.
  intros Hout. destruct (where_ _ rows) as [|r l] eqn:F; [done|].
  assert (r ∈ r :: l) as Hin by apply list_elem_of_here.
  rewrite <-F in Hin. apply elem_of_where in Hin as [Hin E].
  apply holds_eq in E as (s & Hs & [= <-]).
  destruct Hout. rewrite <-Hs. by apply list_elem_of_fmap_2.
Qed.

Lemma getConfigById_rows db i :
  fault db = None →
  getConfigById db i =
  match where_ (λ a, eq (Data.id a) (Some i)) (metadata_runtime_entity_metadata db) with
  | [] => (None, Some ErrNoRows)
  | a :: _ => (Some (configuration_of a), None)
  end.
Proof.
  intros Hok. unfold getConfigById, dataDeploymentsFromRow, structFromRow,
    Row_Scan, QueryRow. rewrite Hok. cbn [row_err row_rows].
  destruct (where_ _ _) as [|a l]; [done|]. rewrite fmap_cons.
  unfold Scan. rewrite bool_decide_eq_true_2 by done.
  by rewrite scanned_select_columns.
Qed.

End SingleRow.

Section DataExtras.

Import Sql Data Spec DataRow.

(** X1 — On a healthy store keyed by [id], [getConfigById] with the id of
    a row answers the record of that row, whose [ID] is the key asked
    for. *)
Theorem getConfigById_found db a i :
  fault db = None →
  primary_key (metadata_runtime_entity_metadata db) →
  a ∈ metadata_runtime_entity_metadata db → Data.id a = Some i →
  getConfigById db i = (Some (configuration_of a), None) ∧
  ID (configuration_of a) = i.
Proof.
  intros Hok Hpk Ha Hid. split.
  - by rewrite getConfigById_rows, (where_id_found _ a i) by done.
  - simpl. by rewrite Hid.
Qed.

(** X2 — On a healthy store an id that no row carries is answered with
    no record and [sql.ErrNoRows]. *)
Theorem getConfigById_missing db i :
  fault db = None →
  Some i ∉ Data.id <$> metadata_runtime_entity_metadata db →
  getConfigById db i = (None, Some ErrNoRows).
Proof.
  intros Hok Hout. by rewrite getConfigById_rows, where_id_missing by done.
Qed.

(** X3 — Every record [getReadyDeployments] returns, with or without a
    type filter, is the record [getConfigById] answers for its [ID]. *)
Theorem ready_configuration_is_fetchable db typeFilter cfg :
  fault db = None →
  primary_key (metadata_runtime_entity_metadata db) →
  cfg ∈ (getReadyDeployments db typeFilter).1 →
  getConfigById db (ID cfg) = (Some cfg, None).
Proof.
  intros Hok Hpk Hcfg. rewrite getReadyDeployments_rows in Hcfg by done.
  simpl in Hcfg. apply list_elem_of_fmap in Hcfg as (a & -> & Ha).
  apply elem_of_where in Ha as [Ha _].
  destruct Hpk as [Hsome Hnd]. pose proof Hsome as Hsome'.
  rewrite Forall_forall in Hsome'. destruct (Hsome' a Ha) as [i Hi].
  rewrite getConfigById_rows by done. simpl. rewrite Hi. simpl.
  by rewrite (where_id_found _ a i).
Qed.

(** A record carries the type asked for exactly when its row does. *)
Lemma Type_configuration_of a typeFilter :
  typeFilter ≠ "" →
  Type' (configuration_of a) = typeFilter ↔
  holds (eq (type a) (Some typeFilter)) = true.
Proof.
  intros Hne. rewrite holds_eq. simpl. split.
  - intros Ht. destruct (type a) as [s|]; simpl in Ht; [|done].
    exists s. by subst.
  - intros (s & -> & [= <-]). done.
Qed.

(** X4 — With a non-empty type filter a record is returned exactly when
    the unfiltered query returns it and it carries that type. *)
Theorem filtered_are_the_unfiltered_of_type db typeFilter cfg :
  fault db = None → typeFilter ≠ "" →
  cfg ∈ (getReadyDeployments db typeFilter).1 ↔
  cfg ∈ (getReadyDeployments db "").1 ∧ Type' cfg = typeFilter.
Proof.
  intros Hok Hne. rewrite !getReadyDeployments_rows by done. simpl.
  rewrite bool_decide_eq_false_2 by done.
  rewrite !list_elem_of_fmap. split.
  - intros (a & -> & Ha). apply elem_of_where in Ha as [Ha Hcond].
    rewrite holds_and3 in Hcond. apply andb_true_iff in Hcond as [Ht Hin].
    split; [|by apply Type_configuration_of].
    exists a. split; [done|]. by apply elem_of_where.
  - intros [(a & -> & Ha) Ht]. apply elem_of_where in Ha as [Ha Hin].
    exists a. split; [done|]. apply elem_of_where. split; [done|].
    apply Type_configuration_of in Ht; [|done].
    by rewrite holds_and3, Ht, Hin.
Qed.

(** X5 — On a healthy store keyed by [id] no record is returned twice. *)
Theorem ready_configurations_are_distinct db typeFilter :
  fault db = None →
  primary_key (metadata_runtime_entity_metadata db) →
  NoDup (getReadyDeployments db typeFilter).1.
Proof.
  intros Hok Hpk. rewrite getReadyDeployments_rows by done. simpl.
  apply NoDup_fmap_2_strong.
  - intros a a' Ha Ha' Heq. apply elem_of_where in Ha as [Ha _].
    apply elem_of_where in Ha' as [Ha' _].
    by apply (configuration_of_inj (metadata_runtime_entity_metadata db)).
  - apply NoDup_where. destruct Hpk as [_ Hnd]. by apply NoDup_fmap_1 in Hnd.
Qed.

Lemma elem_of_getUnreadyBlobs db y :
  fault db = None →
  y ∈ (getUnreadyBlobs db).1 ↔
  y ∈ referenced (metadata_runtime_entity_metadata db) ∧ y ≠ "" ∧
  y ∉ available db.
Proof.
  intros Hok. rewrite getUnreadyBlobs_ok by done. simpl.
  rewrite list_elem_of_omap. split.
  - intros (v & Hv & ->). by apply elem_of_unready_ids.
  - intros H. exists (Some y). split; [|done]. by apply elem_of_unready_ids.
Qed.

(** X6 — On a healthy store keyed by [id], a configuration with a
    non-empty bean blob id is returned as ready exactly when neither its
    bean blob nor its resource blob is among the ids [getUnreadyBlobs]
    returns. *)
Theorem ready_iff_no_blob_unready db a x :
  fault db = None →
  primary_key (metadata_runtime_entity_metadata db) →
  a ∈ metadata_runtime_entity_metadata db →
  bean_blob_id a = Some x → x ≠ "" →
  configuration_of a ∈ (getReadyDeployments db "").1 ↔
  ∀ y, y ∈ (getUnreadyBlobs db).1 →
       bean_blob_id a ≠ Some y ∧ resource_blob_id a ≠ Some y.
Proof.
  intros Hok Hpk Ha Hbean Hx.
  rewrite getReadyDeployments_filtered by done. unfold ready, blob_available.
  split.
  - intros [_ [(i & Hi & Hav) Hres]] y Hy.
    apply elem_of_getUnreadyBlobs in Hy as (_ & Hy0 & Hyout); [|done].
    split.
    + intros Hy. rewrite Hi in Hy. injection Hy as ->. done.
    + intros Hy. destruct Hres as [Hn | [He | (j & Hj & Hjav)]].
      * by rewrite Hn in Hy.
      * rewrite He in Hy. injection Hy as <-. done.
      * rewrite Hj in Hy. injection Hy as ->. done.
  - intros Hnone. split; [by left|].
    assert (∀ y, (bean_blob_id a = Some y ∨ resource_blob_id a = Some y) →
                 y ≠ "" → y ∈ available db) as Hav.
    { intros y Href Hy0. destruct (decide (y ∈ available db)) as [|Hout]; [done|].
      assert (y ∈ (getUnreadyBlobs db).1) as Hy.
      { apply elem_of_getUnreadyBlobs; [done|]. split; [|done].
        apply elem_of_referenced. by exists a. }
      destruct (Hnone y Hy) as [Hb Hr]. by destruct Href. }
    split.
    + exists x. split; [done|]. apply Hav; auto.
    + destruct (resource_blob_id a) as [r|] eqn:Hr; [|by left]. right.
      destruct (decide (r = "")) as [-> | Hr0]; [by left|]. right.
      exists r. split; [done|]. apply Hav; auto.
Qed.

Lemma metadata_updateLocalFsLocation db x p :
  metadata_runtime_entity_metadata (updateLocalFsLocation db x p).1
  = metadata_runtime_entity_metadata db.
Proof. unfold updateLocalFsLocation. by destruct (fault db). Qed.

Lemma available_updateLocalFsLocation db x p :
  fault db = None →
  available (updateLocalFsLocation db x p).1 = {[x]} ∪ available db.
Proof.
  intros Hok. unfold available, updateLocalFsLocation, insert_or_ignore.
  rewrite Hok. simpl. destruct (apid_blob_available db !! x) eqn:E.
  - apply set_eq. intros y. rewrite base.elem_of_union, elem_of_singleton.
    split; [by right|]. intros [-> | Hy]; [|done]. apply elem_of_dom. by eexists.
  - apply dom_insert_L.
Qed.

(** X7 — Recording a blob on a healthy store removes exactly that id from
    the unready blob ids and leaves the configurations untouched. *)
Theorem recording_removes_blob_from_unready db x p :
  fault db = None →
  list_to_set (getUnreadyBlobs (updateLocalFsLocation db x p).1).1
    =@{gset string} list_to_set (getUnreadyBlobs db).1 ∖ {[x]} ∧
  metadata_runtime_entity_metadata (updateLocalFsLocation db x p).1
    = metadata_runtime_entity_metadata db.
Proof.
  intros Hok. split; [|apply metadata_updateLocalFsLocation].
  assert (fault (updateLocalFsLocation db x p).1 = None) as Hok'
    by by apply fault_updateLocalFsLocation.
  apply set_eq. intros y.
  rewrite elem_of_difference, !elem_of_list_to_set, elem_of_singleton.
  rewrite !elem_of_getUnreadyBlobs by done.
  rewrite metadata_updateLocalFsLocation, available_updateLocalFsLocation by done.
  rewrite not_elem_of_union, elem_of_singleton. tauto.
Qed.

(** X8 — Recording a blob on a healthy store keyed by [id] never makes a
    ready configuration unready: every record returned before is returned
    after. *)
Theorem recording_keeps_ready db x p typeFilter cfg :
  fault db = None →
  primary_key (metadata_runtime_entity_metadata db) →
  cfg ∈ (getReadyDeployments db typeFilter).1 →
  cfg ∈ (getReadyDeployments (updateLocalFsLocation db x p).1 typeFilter).1.
Proof.
  intros Hok Hpk Hcfg.
  assert (fault (updateLocalFsLocation db x p).1 = None) as Hok'
    by by apply fault_updateLocalFsLocation.
  pose proof Hcfg as Hrow. rewrite getReadyDeployments_rows in Hrow by done.
  simpl in Hrow. apply list_elem_of_fmap in Hrow as (a & -> & Ha).
  apply elem_of_where in Ha as [Ha _].
  apply getReadyDeployments_filtered in Hcfg as [Ht [Hbean Hres]]; try done.
  apply getReadyDeployments_filtered;
    rewrite ?metadata_updateLocalFsLocation; try done.
  assert (∀ v, blob_available db v →
               blob_available (updateLocalFsLocation db x p).1 v) as Hmono.
  { intros v (i & Hi & Hav). exists i. split; [done|].
    rewrite available_updateLocalFsLocation by done.
    apply base.elem_of_union. by right. }
  split; [done|]. split; [by apply Hmono|].
  destruct Hres as [? | [? | ?]]; auto.
Qed.

Lemma lookup_kept_updateLocalFsLocation db x p y q :
  apid_blob_available db !! y = Some q →
  apid_blob_available (updateLocalFsLocation db x p).1 !! y = Some q.
Proof.
  intros Hy. unfold updateLocalFsLocation, insert_or_ignore.
  destruct (fault db); [done|]. simpl.
  destruct (apid_blob_available db !! x) eqn:E; [done|].
  rewrite lookup_insert_ne; [done|]. intros ->. congruence.
Qed.

Lemma record_all_cons db x p calls :
  record_all db ((x, p) :: calls) =
  ((record_all (updateLocalFsLocation db x p).1 calls).1,
   (updateLocalFsLocation db x p).2
     :: (record_all (updateLocalFsLocation db x p).1 calls).2).
Proof.
  simpl. destruct (updateLocalFsLocation db x p) as [db' e]. simpl.
  by destruct (record_all db' calls).
Qed.

(** X9 — The blob table is append-only: whatever run of records follows,
    an id that is mapped keeps the path it has, and the configuration
    table is not touched. *)
Theorem recorded_path_never_changes db calls y q :
  apid_blob_available db !! y = Some q →
  apid_blob_available (record_all db calls).1 !! y = Some q ∧
  metadata_runtime_entity_metadata (record_all db calls).1
    = metadata_runtime_entity_metadata db.
Proof.
  revert db. induction calls as [|[x p] calls IH]; intros db Hy; [done|].
  rewrite record_all_cons. simpl.
  destruct (IH (updateLocalFsLocation db x p).1) as [Hkept Hrows].
  { by apply lookup_kept_updateLocalFsLocation. }
  split; [done|]. by rewrite Hrows, metadata_updateLocalFsLocation.
Qed.

(** X10 — [structFromRows] answers one record per row when every row has
    thirteen columns, and otherwise no record at all and the error of
    [Scan], whatever rows came before the bad one. *)
Theorem structFromRows_all_or_nothing (rows : list (list value)) :
  structFromRows rows =
  if bool_decide (Forall (λ row, length row = NumField) rows)
  then ((λ row, setFields 0 (scanNullString <$> row) zero) <$> rows, None)
  else ([], Some "sql: expected destination arguments in Scan").
Proof.
  unfold structFromRows. case_bool_decide as Hall.
  - by rewrite structFromRows_loop_ok.
  - cut (∀ slice, structFromRows_loop rows slice
                    = ([], Some "sql: expected destination arguments in Scan")).
    { intros H. apply H. }
    induction rows as [|row rows IH]; intros slice.
    + destruct Hall. constructor.
    + simpl. unfold Scan. case_bool_decide as Hrow; simpl; [|reflexivity].
      apply IH. intros Hrows. apply Hall. by constructor.
Qed.

(** X11 — [getLastSequence] passes a storage failure on; on a healthy
    store it never fails and answers the value of the first row, or the
    empty string when the table is empty or that value is NULL. *)
Theorem getLastSequence_first_row db (EDGEX_APID_CLUSTER : list value) :
  getLastSequence db EDGEX_APID_CLUSTER =
  match fault db with
  | Some err => ("", Some err)
  | None => (default "" (head EDGEX_APID_CLUSTER ≫= λ v, v), None)
  end.
Proof.
  unfold getLastSequence, Row_Scan, QueryRow. destruct (fault db); [done|].
  simpl. by destruct EDGEX_APID_CLUSTER as [|[s|] t].
Qed.

(** X12 — For an id without quote or NUL byte, a record on a healthy store
    is read back by the lookup without error: the path the id already had,
    or else the path just recorded. *)
Theorem lookup_after_record other db x p :
  plain x = true → fault db = None →
  getLocalFSLocation other (updateLocalFsLocation db x p).1 x
  = (default p (apid_blob_available db !! x), None).
Proof.
  intros Hplain Hok.
  rewrite getLocalFSLocation_plain by by try apply fault_updateLocalFsLocation.
  by rewrite lookup_updateLocalFsLocation.
Qed.

Lemma scan_literal_lone_quote s :
  plain s = true → scan_literal ((s +:+ "'") +:+ "'") = Unterminated.
Proof.
  induction s as [|c t IH]; [done|]. intros H. simpl in H.
  apply andb_true_iff in H as [H Ht]. apply andb_true_iff in H as [H0 Hq].
  apply negb_true_iff in H0, Hq.
  change (scan_literal (String c ((t +:+ "'") +:+ "'")) = Unterminated).
  simpl. rewrite H0, Hq, IH by done. done.
Qed.

(** X13 — An id that ends in a quote after a text without quote or NUL
    byte turns the statement of the lookup into one that does not parse:
    the lookup fails, whatever the table holds. *)
Theorem lookup_of_trailing_quote_fails other db s :
  plain s = true → fault db = None →
  getLocalFSLocation other db (s +:+ "'") = ("", Some "unrecognized token").
Proof.
  intros Hplain Hok. unfold getLocalFSLocation, query_local_fs_location.
  by rewrite Hok, scan_literal_lone_quote.
Qed.

End DataExtras.

(** * Further properties of api.go *)

Section Tokens.

Import Api.

Lemma pretty_N_go_ne_empty x s : s ≠ "" → pretty_N_go x s ≠ "".
Proof.
  revert s. induction (N.lt_wf_0 x) as [x _ IH]; intros s Hs.
  destruct (decide (x = 0)%N) as [-> | Hx]; [by rewrite pretty_N_go_0|].
  rewrite pretty_N_go_step by lia. apply IH; [|done].
  apply N.div_lt; lia.
Qed.

(** A token is never the empty string. *)
Lemma FormatInt_nonempty e : FormatInt e ≠ "".
Proof.
  unfold FormatInt, pretty, pretty_Z. destruct e as [|p|p]; [done|..].
  - unfold pretty, pretty_positive, pretty, pretty_N.
    rewrite decide_False by done.
    rewrite pretty_N_go_step by lia. by apply pretty_N_go_ne_empty.
  - done.
Qed.

Lemma wrap64_range z : (minInt64 ≤ wrap64 z ≤ maxInt64)%Z.
Proof.
  unfold wrap64, minInt64, maxInt64.
  pose proof (Z.mod_pos_bound (z - - 2 ^ 63) (2 ^ 64)) as H. lia.
Qed.

Lemma wrap64_eq_iff a b :
  wrap64 a = wrap64 b ↔ ((a - b) `mod` 2 ^ 64 = 0)%Z.
Proof.
  unfold wrap64. split.
  - intros H.
    assert ((a - minInt64) `mod` 2 ^ 64 = (b - minInt64) `mod` 2 ^ 64)%Z as Hm
      by lia.
    replace (a - b)%Z with ((a - minInt64) - (b - minInt64))%Z by lia.
    rewrite Zminus_mod, Hm, Z.sub_diag. done.
  - intros H. f_equal.
    replace (a - minInt64)%Z with ((b - minInt64) + (a - b))%Z by lia.
    rewrite Zplus_mod, H, Z.add_0_r, Z.mod_mod; lia.
Qed.

End Tokens.

Section HandlerExtras.

Import Api Distributor.

(** X14 — Two settles fewer than 2^64 apart never carry the same token,
    wrap included, and the counter stays a 64-bit value. *)
Theorem token_not_reused_within_2_64 (j k : N) e :
  (minInt64 ≤ e ≤ maxInt64)%Z → (j < k)%N → (k - j < 2 ^ 64)%N →
  eTag_after j e ≠ eTag_after k e ∧
  FormatInt (eTag_after j e) ≠ FormatInt (eTag_after k e) ∧
  (minInt64 ≤ eTag_after k e ≤ maxInt64)%Z.
Proof.
  intros He Hjk Hclose. rewrite !eTag_after_wrap by done.
  assert (wrap64 (e + Z.of_N j) ≠ wrap64 (e + Z.of_N k)) as Hne.
  { rewrite wrap64_eq_iff.
    replace (e + Z.of_N j - (e + Z.of_N k))%Z with (- Z.of_N (k - j))%Z by lia.
    intros H. apply Z.mod_divide in H; [|lia].
    apply Z.divide_opp_r in H. apply Z.divide_pos_le in H; lia. }
  split; [done|]. split; [|apply wrap64_range].
  intros H. by apply FormatInt_inj in H.
Qed.

(** X15 — A request whose [block] value is accepted and whose
    [If-None-Match] is absent or differs from the current token is answered
    at once with the ready deployments; nothing is sent on the subscriber
    channels, however long it offered to wait. *)
Theorem other_token_is_answered_at_once g W r fresh sel :
  Get "block" (query r) = "" ∨ (Atoi (Get "block" (query r))).2 = None →
  Get "If-None-Match" (headers r) = "" ∨
    Get "If-None-Match" (headers r) ≠ getETag W →
  apiGetCurrentDeployments g W r fresh sel
  = (sendReadyDeployments g W newResponseWriter, []).
Proof.
  intros Hb Hinm.
  assert (getETag W ≠ Get "If-None-Match" (headers r)) as Hne.
  { destruct Hinm as [-> | Hne]; [apply FormatInt_nonempty | done]. }
  unfold apiGetCurrentDeployments.
  set (parsed := if bool_decide (Get "block" (query r) ≠ "") then _ else _).
  assert (parsed.2 = None) as Hparsed.
  { subst parsed. case_bool_decide; [|done]. by destruct Hb. }
  destruct parsed as [timeout [e|]]; [done|].
  rewrite (bool_decide_eq_false_2 (getETag W = _)) by done.
  rewrite (bool_decide_eq_true_2 (getETag W ≠ _)) by done. reflexivity.
Qed.

(** X16 — Whatever the request, an answer with status 200 carries an
    [ETag] header, holding the current token or the token of the result
    delivered to it, and an answer with any other status carries no header
    at all. *)
Theorem ETag_header_iff_200 g W r fresh sel :
  let w := (apiGetCurrentDeployments g W r fresh sel).1 in
  (StatusCode w = StatusOK →
   header w !! "ETag" = Some (getETag W) ∨
   ∃ result, sel = received result ∧ header w !! "ETag" = Some (eTag' result)) ∧
  (StatusCode w ≠ StatusOK → header w = ∅).
Proof.
  assert (∀ deps e, StatusCode (sendDeployments W newResponseWriter deps e)
                    = StatusOK ∧
                    header (sendDeployments W newResponseWriter deps e) !! "ETag"
                    = Some e) as Hsend.
  { intros. split; [done|]. unfold sendDeployments. simpl.
    by rewrite lookup_insert_eq. }
  assert (StatusCode (sendReadyDeployments g W newResponseWriter) = StatusOK →
          header (sendReadyDeployments g W newResponseWriter) !! "ETag"
          = Some (getETag W)) as Hready200.
  { unfold sendReadyDeployments. destruct (g (db W)) as [deps [e|]]; [done|].
    intros _. apply Hsend. }
  assert (StatusCode (sendReadyDeployments g W newResponseWriter) ≠ StatusOK →
          header (sendReadyDeployments g W newResponseWriter) = ∅) as Hready.
  { unfold sendReadyDeployments. destruct (g (db W)) as [deps [e|]]; [done|].
    intros H. by destruct H. }
  unfold apiGetCurrentDeployments. simpl.
  destruct (if bool_decide (Get "block" (query r) ≠ "") then _ else _)
    as [timeout [e|]]; [done|].
  destruct (bool_decide (getETag W = _) && _); [done|].
  destruct (bool_decide (getETag W ≠ _)); simpl; [by auto|].
  destruct (bool_decide (0 < timeout)%Z && _); simpl.
  - destruct sel as [result|]; simpl.
    + destruct (err result); [done|]. split; [|done].
      intros _. right. exists result. split; [done|]. apply Hsend.
    + destruct (bool_decide _); simpl; [done | by auto].
  - destruct (bool_decide _); simpl; [done | by auto].
Qed.

(** X17 — The request subscribes exactly when its [If-None-Match] equals
    the current token and its [block] value is accepted as a number above
    zero. *)
Theorem subscribes_iff_matching_token_and_wait g W r fresh sel :
  addSubscriber_send fresh ∈ (apiGetCurrentDeployments g W r fresh sel).2 ↔
  Get "If-None-Match" (headers r) = getETag W ∧
  Get "block" (query r) ≠ "" ∧
  ∃ timeout, Atoi (Get "block" (query r)) = (timeout, None) ∧ (0 < timeout)%Z.
Proof.
  unfold apiGetCurrentDeployments.
  destruct (decide (Get "block" (query r) = "")) as [Hb | Hb].
  { rewrite bool_decide_eq_false_2 by (by intros []).
    split; [|by intros (_ & ? & _)].
    destruct (bool_decide (getETag W = _)); simpl;
      [intros H; by apply elem_of_nil in H|].
    destruct (bool_decide (getETag W ≠ _)); simpl;
      [intros H; by apply elem_of_nil in H|].
    intros H. apply list_elem_of_singleton in H. done. }
  rewrite bool_decide_eq_true_2 by done.
  destruct (Atoi (Get "block" (query r))) as [timeout [e|]] eqn:Hparse.
  { simpl. split; [intros H; by apply elem_of_nil in H|].
    by intros (_ & _ & t & [=] & _). }
  destruct (decide (getETag W = Get "If-None-Match" (headers r))) as [Heq | Hne].
  - rewrite (bool_decide_eq_true_2 (getETag W = _)) by done.
    rewrite (bool_decide_eq_false_2 (getETag W ≠ _)) by (by intros []).
    assert (Get "If-None-Match" (headers r) ≠ "") as Hinm.
    { rewrite <-Heq. apply FormatInt_nonempty. }
    rewrite (bool_decide_eq_true_2 (Get "If-None-Match" (headers r) ≠ ""))
      by done.
    rewrite andb_true_r. simpl.
    destruct (decide (timeout = 0)%Z) as [-> | Ht0].
    { simpl. split; [intros H; by apply elem_of_nil in H|].
      intros (_ & _ & t & [= <-] & ?). lia. }
    rewrite (bool_decide_eq_false_2 (timeout = 0)%Z) by done. simpl.
    destruct (decide (0 < timeout)%Z) as [Hpos | Hneg].
    + rewrite bool_decide_eq_true_2 by done. split.
      * intros _. split; [done|]. split; [done|]. by exists timeout.
      * intros _. destruct sel; simpl; apply list_elem_of_here.
    + rewrite bool_decide_eq_false_2 by done. split.
      * destruct sel; simpl; intros H; apply list_elem_of_singleton in H; done.
      * intros (_ & _ & t & [= <-] & ?). done.
  - rewrite (bool_decide_eq_false_2 (getETag W = _)) by done. simpl.
    rewrite bool_decide_eq_true_2 by done. simpl.
    split; [intros H; by apply elem_of_nil in H|]. by intros [? _].
Qed.

(** What a request whose select ends on the timer has sent. *)
Lemma timed_out_sends g W r fresh :
  (apiGetCurrentDeployments g W r fresh timed_out).2 = [] ∨
  (apiGetCurrentDeployments g W r fresh timed_out).2
    = [removeSubscriber_send None] ∨
  (apiGetCurrentDeployments g W r fresh timed_out).2
    = [addSubscriber_send fresh; removeSubscriber_send (Some fresh)].
Proof.
  unfold apiGetCurrentDeployments.
  destruct (if bool_decide (Get "block" (query r) ≠ "") then _ else _)
    as [timeout [e|]]; [by left|].
  destruct (bool_decide (getETag W = _) && _); [by left|].
  destruct (bool_decide (getETag W ≠ _)); simpl; [by left|].
  destruct (bool_decide (0 < timeout)%Z && _); simpl; auto.
Qed.

(** X18 — A request whose wait ends on the timer leaves the subscriber set
    of the loop as it found it and starts no delivery: whatever it
    registered, it has removed again. *)
Theorem timed_out_request_leaves_no_subscriber g W r fresh subs :
  fresh ∉ subs →
  distributeEvents subs
    (arrives <$> (apiGetCurrentDeployments g W r fresh timed_out).2)
  = ([], Some subs).
Proof.
  intros Hfresh.
  destruct (timed_out_sends g W r fresh) as [-> | [-> | ->]]; try done.
  simpl. do 3 f_equal. apply set_eq. intros c.
  rewrite elem_of_difference, base.elem_of_union, elem_of_singleton.
  split; [tauto|]. intros Hc. split; [by right|]. by intros ->.
Qed.

(** X19 — A request that waits with the current token and is woken by a
    settle receives the result of that settle: it has subscribed and not
    unsubscribed, its answer never carries the token it sent, and it is 200
    with the token after the settle when the query of the settle
    succeeded, 500 when it failed. *)
Theorem woken_request_gets_new_token g_ready g W r fresh subs timeout :
  (minInt64 ≤ eTag W ≤ maxInt64)%Z →
  Get "If-None-Match" (headers r) = getETag W →
  Get "block" (query r) ≠ "" →
  Atoi (Get "block" (query r)) = (timeout, None) → (0 < timeout)%Z →
  fresh ∈ subs →
  ∃ result,
    (fresh, result) ∈ (deliver g W subs).2 ∧
    (apiGetCurrentDeployments g_ready W r fresh (received result)).2
      = [addSubscriber_send fresh] ∧
    header (apiGetCurrentDeployments g_ready W r fresh (received result)).1
      !! "ETag" ≠ Some (Get "If-None-Match" (headers r)) ∧
    match (g (db W)).2 with
    | None =>
        StatusCode (apiGetCurrentDeployments g_ready W r fresh (received result)).1
          = StatusOK ∧
        header (apiGetCurrentDeployments g_ready W r fresh (received result)).1
          !! "ETag" = Some (getETag (deliver g W subs).1)
    | Some _ =>
        StatusCode (apiGetCurrentDeployments g_ready W r fresh (received result)).1
          = StatusInternalServerError
    end.
Proof.
  intros He Hinm Hb Hparse Hpos Hfresh.
  exists (mkDeploymentsResult (g (db W)).1 (g (db W)).2
            (FormatInt (wrap64 (eTag W + 1)))).
  split.
  { unfold deliver. simpl. destruct (g (db W)) as [deps e]. simpl.
    apply list_elem_of_fmap. exists fresh. split; [done|].
    by apply elem_of_elements. }
  assert (getETag (deliver g W subs).1 = FormatInt (wrap64 (eTag W + 1))) as Htok.
  { unfold getETag. by rewrite eTag_deliver. }
  assert (FormatInt (wrap64 (eTag W + 1)) ≠ getETag W) as Hnew.
  { unfold getETag. intros H. apply FormatInt_inj in H.
    rewrite <-(wrap64_id (eTag W)) in H at 2 by done.
    apply wrap64_eq_iff in H.
    replace (eTag W + 1 - eTag W)%Z with 1%Z in H by lia. done. }
  unfold apiGetCurrentDeployments.
  rewrite bool_decide_eq_true_2 by done. rewrite Hparse, Hinm.
  rewrite (bool_decide_eq_true_2 (getETag W = getETag W)) by done.
  rewrite (bool_decide_eq_false_2 (timeout = 0)%Z) by lia.
  rewrite (bool_decide_eq_false_2 (getETag W ≠ getETag W)) by (by intros []).
  rewrite (bool_decide_eq_true_2 (0 < timeout)%Z) by done.
  rewrite (bool_decide_eq_true_2 (getETag W ≠ "")) by apply FormatInt_nonempty.
  simpl. destruct ((g (db W)).2) as [e|]; simpl.
  - repeat split; done.
  - repeat split; try done.
    + unfold sendDeployments. simpl. rewrite lookup_insert_eq.
      intros [= H]. done.
    + unfold sendDeployments. simpl. by rewrite lookup_insert_eq, Htok.
Qed.

End HandlerExtras.

Section Loop.

Import Api Distributor.

Lemma distributeEvents_cons subs ev evs :
  distributeEvents subs (ev :: evs) =
  match distributeEvents_step subs ev with
  | (None, _) => ([], None)
  | (Some subs', started) =>
      (match started with
       | Some s => s :: (distributeEvents subs' evs).1
       | None => (distributeEvents subs' evs).1
       end, (distributeEvents subs' evs).2)
  end.
Proof.
  simpl. destruct (distributeEvents_step subs ev) as [[subs'|] started]; [|done].
  by destruct (distributeEvents subs' evs).
Qed.

(** A run continues where the run before it stopped. *)
Lemma distributeEvents_app evs1 : ∀ subs evs2 started subs',
  distributeEvents subs evs1 = (started, Some subs') →
  distributeEvents subs (evs1 ++ evs2) =
  (started ++ (distributeEvents subs' evs2).1, (distributeEvents subs' evs2).2).
Proof.
  induction evs1 as [|ev evs1 IH]; intros subs evs2 started subs' Hrun.
  - injection Hrun as <- <-. simpl. by destruct (distributeEvents subs evs2).
  - rewrite <-app_comm_cons, distributeEvents_cons.
    rewrite distributeEvents_cons in Hrun.
    destruct (distributeEvents_step subs ev) as [[s|] st]; [|done].
    destruct (distributeEvents s evs1) as [l fin] eqn:E. simpl in Hrun.
    assert (fin = Some subs') as -> by (by destruct st; injection Hrun).
    rewrite (IH s evs2 l subs' E). simpl.
    destruct st; injection Hrun as <-; done.
Qed.

(** Every channel a delivery is started for was in the set at the start or
    registered during the run. *)
Lemma started_from_registered evs : ∀ subs s c,
  s ∈ (distributeEvents subs evs).1 → c ∈ s → c ∈ subs ∨ c ∈ registered evs.
Proof.
  induction evs as [|ev evs IH]; intros subs s c Hs Hc.
  - by apply elem_of_nil in Hs.
  - rewrite distributeEvents_cons in Hs.
    destruct ev as [[|] | c' | [c'|]]; simpl in Hs.
    + apply elem_of_cons in Hs as [-> | Hs]; [by left|].
      destruct (IH ∅ s c Hs Hc) as [H | H]; [by apply elem_of_empty in H|].
      by right.
    + by apply elem_of_nil in Hs.
    + destruct (IH _ s c Hs Hc) as [H | H].
      * apply base.elem_of_union in H as [H | H]; [|by left].
        apply elem_of_singleton in H as ->. right.
        unfold registered. simpl. apply list_elem_of_here.
      * right. unfold registered. simpl. by apply list_elem_of_further.
    + destruct (IH _ s c Hs Hc) as [H | H]; [|by right].
      apply elem_of_difference in H as [H _]. by left.
    + destruct (IH _ s c Hs Hc) as [H | H]; auto.
Qed.

Lemma deliveries_ordered_disjoint evs : ∀ subs (i j : nat) si sj,
  NoDup (registered evs) →
  (∀ c, c ∈ registered evs → c ∉ subs) →
  i < j →
  (distributeEvents subs evs).1 !! i = Some si →
  (distributeEvents subs evs).1 !! j = Some sj →
  si ## sj.
Proof.
  induction evs as [|ev evs IH]; intros subs i j si sj Hnd Hfresh Hij Hi Hj.
  - done.
  - rewrite distributeEvents_cons in Hi, Hj.
    destruct ev as [[|] | c' | [c'|]]; simpl in Hi, Hj.
    + destruct j as [|j]; [lia|]. simpl in Hj. destruct i as [|i]; simpl in Hi.
      * injection Hi as <-. apply elem_of_disjoint. intros c Hc Hc'.
        apply list_elem_of_lookup_2 in Hj.
        destruct (started_from_registered evs ∅ sj c Hj Hc') as [H | H].
        -- by apply elem_of_empty in H.
        -- by apply (Hfresh c).
      * apply (IH ∅ i j si sj); [done | | lia | done | done].
        intros c _. apply not_elem_of_empty.
    + done.
    + unfold registered in Hnd, Hfresh. simpl in Hnd, Hfresh.
      apply NoDup_cons in Hnd as [Hc' Hnd].
      apply (IH ({[c']} ∪ subs) i j si sj); try done.
      intros c Hc. rewrite not_elem_of_union, elem_of_singleton. split.
      * by intros ->.
      * apply Hfresh. by apply list_elem_of_further.
    + apply (IH (subs ∖ {[c']}) i j si sj); try done.
      intros c Hc Hin. apply elem_of_difference in Hin as [Hin _].
      by apply (Hfresh c).
    + by apply (IH subs i j si sj).
Qed.

(** X20 — When every channel is registered at most once and none of them
    is in the set at the start, the subscriber sets of two different
    deliveries of a run are disjoint: no waiter is sent two results. *)
Theorem no_waiter_is_delivered_twice subs evs (i j : nat) si sj :
  NoDup (registered evs) →
  (∀ c, c ∈ registered evs → c ∉ subs) →
  i ≠ j →
  (distributeEvents subs evs).1 !! i = Some si →
  (distributeEvents subs evs).1 !! j = Some sj →
  si ## sj.
Proof.
  intros Hnd Hfresh Hij Hi Hj. destruct (decide (i < j)) as [Hlt | Hge].
  - by apply (deliveries_ordered_disjoint evs subs i j).
  - symmetry. apply (deliveries_ordered_disjoint evs subs j i); try done. lia.
Qed.

(** A stretch of the run without a settle starts no delivery and keeps a
    channel that is not removed in it. *)
Lemma quiet_stretch_keeps evs : ∀ subs c,
  Forall (λ ev, ev ≠ removeSubscriber_recv (Some c) ∧
                ∀ ok, ev ≠ deliverDeployments_recv ok) evs →
  c ∈ subs →
  ∃ subs', distributeEvents subs evs = ([], Some subs') ∧ c ∈ subs'.
Proof.
  induction evs as [|ev evs IH]; intros subs c Hall Hc.
  - by exists subs.
  - apply Forall_cons in Hall as [[Hrem Hdel] Hall].
    rewrite distributeEvents_cons.
    destruct ev as [ok | c' | [c'|]]; simpl.
    + by destruct (Hdel ok).
    + destruct (IH ({[c']} ∪ subs) c Hall) as (subs' & -> & Hc').
      { apply base.elem_of_union. by right. }
      by exists subs'.
    + destruct (IH (subs ∖ {[c']}) c Hall) as (subs' & -> & Hc').
      { apply elem_of_difference. split; [done|].
        rewrite elem_of_singleton. intros ->. done. }
      by exists subs'.
    + destruct (IH subs c Hall Hc) as (subs' & -> & Hc'). by exists subs'.
Qed.

(** A stretch of the run without a settle keeps a channel out that is not
    registered in it. *)
Lemma quiet_stretch_keeps_out evs : ∀ subs c,
  Forall (λ ev, ev ≠ addSubscriber_recv c ∧
                ∀ ok, ev ≠ deliverDeployments_recv ok) evs →
  c ∉ subs →
  ∃ subs', distributeEvents subs evs = ([], Some subs') ∧ c ∉ subs'.
Proof.
  induction evs as [|ev evs IH]; intros subs c Hall Hc.
  - by exists subs.
  - apply Forall_cons in Hall as [[Hadd Hdel] Hall].
    rewrite distributeEvents_cons.
    destruct ev as [ok | c' | [c'|]]; simpl.
    + by destruct (Hdel ok).
    + destruct (IH ({[c']} ∪ subs) c Hall) as (subs' & -> & Hc').
      { rewrite not_elem_of_union, elem_of_singleton. split; [|done].
        intros ->. done. }
      by exists subs'.
    + destruct (IH (subs ∖ {[c']}) c Hall) as (subs' & -> & Hc').
      { intros H. apply elem_of_difference in H as [H _]. done. }
      by exists subs'.
    + destruct (IH subs c Hall Hc) as (subs' & -> & Hc'). by exists subs'.
Qed.

(** X21 — A channel registered while the loop runs, and not removed
    before the next settle, is in the set that settle delivers to, and the
    loop goes on with no subscriber. *)
Theorem registered_waiter_is_delivered subs evs1 evs2 c started subs1 :
  distributeEvents subs evs1 = (started, Some subs1) →
  Forall (λ ev, ev ≠ removeSubscriber_recv (Some c) ∧
                ∀ ok, ev ≠ deliverDeployments_recv ok) evs2 →
  ∃ s,
    distributeEvents subs
      (evs1 ++ addSubscriber_recv c :: evs2 ++ [deliverDeployments_recv true])
    = (started ++ [s], Some ∅) ∧ c ∈ s.
Proof.
  intros Hrun Hquiet.
  destruct (quiet_stretch_keeps evs2 ({[c]} ∪ subs1) c Hquiet) as (s & Hs & Hc).
  { apply base.elem_of_union. left. by apply elem_of_singleton. }
  exists s. split; [|done].
  rewrite (distributeEvents_app evs1 subs _ started subs1 Hrun).
  rewrite distributeEvents_cons. simpl.
  rewrite (distributeEvents_app evs2 _ _ [] s Hs). done.
Qed.

(** X22 — A channel removed while the loop runs, whether or not it was
    registered, and not registered again before the next settle, is not in
    the set that settle delivers to. *)
Theorem removed_waiter_is_not_delivered subs evs1 evs2 c started subs1 :
  distributeEvents subs evs1 = (started, Some subs1) →
  Forall (λ ev, ev ≠ addSubscriber_recv c ∧
                ∀ ok, ev ≠ deliverDeployments_recv ok) evs2 →
  ∃ s,
    distributeEvents subs
      (evs1 ++ removeSubscriber_recv (Some c) :: evs2
            ++ [deliverDeployments_recv true])
    = (started ++ [s], Some ∅) ∧ c ∉ s.
Proof.
  intros Hrun Hquiet.
  destruct (quiet_stretch_keeps_out evs2 (subs1 ∖ {[c]}) c Hquiet)
    as (s & Hs & Hc).
  { intros H. apply elem_of_difference in H as [_ H].
    apply H. by apply elem_of_singleton. }
  exists s. split; [|done].
  rewrite (distributeEvents_app evs1 subs _ started subs1 Hrun).
  rewrite distributeEvents_cons. simpl.
  rewrite (distributeEvents_app evs2 _ _ [] s Hs). done.
Qed.

End Loop.

Section DebounceFacts.

Import Api Distributor.

Context {A : Type}.

Implicit Types (toSend : list A) (inputs : list (input A)).

Lemma debounce_cons toSend i inputs :
  debounce toSend (i :: inputs) =
  match debounce_step toSend i with
  | (None, outs) => (outs, None)
  | (Some toSend', outs) =>
      (outs ++ (debounce toSend' inputs).1, (debounce toSend' inputs).2)
  end.
Proof.
  simpl. destruct (debounce_step toSend i) as [[toSend'|] outs]; [|done].
  by destruct (debounce toSend' inputs).
Qed.

Lemma batches_app (outs outs' : list (output A)) :
  batches (outs ++ outs') = batches outs ++ batches outs'.
Proof. apply omap_app. Qed.

Lemma batches_send toSend : concat (batches (send toSend)) = toSend.
Proof. destruct toSend; simpl; [done|]. by rewrite app_nil_r. Qed.

Lemma empty_not_in_send toSend : [] ∉ batches (send toSend).
Proof.
  destruct toSend as [|x l]; simpl; [apply not_elem_of_nil|].
  intros H. by apply list_elem_of_singleton in H.
Qed.

Lemma send_is_Sent toSend : send toSend = Sent <$> batches (send toSend).
Proof. by destruct toSend. Qed.

(** X23 — The debouncer neither loses, repeats nor reorders what it
    receives: the batches it has sent, followed by what it still holds, are
    what it started with followed by the values received until [in] was
    closed. *)
Theorem debounce_keeps_every_value toSend inputs :
  concat (batches (debounce toSend inputs).1)
    ++ default [] (debounce toSend inputs).2
  = toSend ++ incomings inputs.
Proof.
  revert toSend. induction inputs as [|i inputs IH]; intros toSend.
  - simpl. by rewrite app_nil_r.
  - rewrite debounce_cons. destruct i as [x| |]; simpl.
    + rewrite IH. by rewrite <-app_assoc.
    + rewrite batches_app, concat_app, batches_send. simpl.
      by rewrite !app_nil_r.
    + rewrite batches_app, concat_app, batches_send, <-app_assoc, IH. done.
Qed.

(** X24 — The debouncer never sends an empty batch, closes [out] exactly
    when [in] was found closed, and does so once, after its last batch. *)
Theorem debounce_output_shape toSend inputs :
  (debounce toSend inputs).1 =
    ((Sent <$> batches (debounce toSend inputs).1)
     ++ match (debounce toSend inputs).2 with
        | None => [OutClosed]
        | Some _ => []
        end) ∧
  ([] ∉ batches (debounce toSend inputs).1) ∧
  ((debounce toSend inputs).2 = None ↔ InClosed ∈ inputs).
Proof.
  revert toSend. induction inputs as [|i inputs IH]; intros toSend.
  - simpl. split; [done|]. split; [apply not_elem_of_nil|].
    split; [done|]. intros H. by apply elem_of_nil in H.
  - rewrite debounce_cons. destruct i as [x| |]; simpl.
    + destruct (IH (toSend ++ [x])) as (Hshape & Hne & Hclosed).
      split; [done|]. split; [done|]. rewrite Hclosed, elem_of_cons.
      split; [by right|]. by intros [? | ?].
    + split; [|split].
      * rewrite batches_app, fmap_app. simpl. rewrite app_nil_r.
        by rewrite <-send_is_Sent.
      * rewrite batches_app. simpl. rewrite app_nil_r. apply empty_not_in_send.
      * split; [|done]. intros _. apply list_elem_of_here.
    + destruct (IH []) as (Hshape & Hne & Hclosed). split; [|split].
      * rewrite batches_app, fmap_app, <-send_is_Sent, <-app_assoc.
        by rewrite <-Hshape.
      * rewrite batches_app, elem_of_app. intros [H | H]; [|done].
        by apply empty_not_in_send in H.
      * rewrite Hclosed, elem_of_cons. split; [by right|]. by intros [? | ?].
Qed.

Lemma debounce_burst (xs : list A) : ∀ toSend inputs,
  debounce toSend ((Incoming <$> xs) ++ inputs) = debounce (toSend ++ xs) inputs.
Proof.
  induction xs as [|x xs IH]; intros toSend inputs.
  - simpl. by rewrite app_nil_r.
  - rewrite fmap_cons, <-app_comm_cons, debounce_cons. simpl.
    rewrite IH, <-app_assoc. simpl. by destruct (debounce _ inputs).
Qed.

(** X25 — A burst of values with no pause between them, however long, is
    sent as one batch when the timer fires and makes the loop start one
    delivery, to all its subscribers; a timer that fires on nothing
    received sends nothing and starts nothing. *)
Theorem burst_settles_once (xs : list A) (subs : gset chan) :
  debounce [] ((Incoming <$> xs) ++ [After]) = (send xs, Some []) ∧
  distributeEvents subs (delivered <$> send xs) =
  match xs with
  | [] => ([], Some subs)
  | _ => ([subs], Some ∅)
  end.
Proof.
  split.
  - rewrite debounce_burst. simpl. by rewrite app_nil_r.
  - by destruct xs.
Qed.

End DebounceFacts.

Section BlobExtras.

Import Api Spec.

(** X26 — Once a blob with an id without quote or NUL byte is recorded on
    a healthy store under the path of a readable file, the blob handler
    answers a request for it with 200 and the bytes of that file. *)
Theorem recorded_blob_is_served other W r x p byte :
  plain x = true → Data.fault (db W) = None →
  Data.apid_blob_available (db W) !! x = None →
  p ≠ "" → files W !! p = Some byte →
  vars r !! "blobId" = Some x →
  StatusCode
    (apiReturnBlobData other
       (mkWorld (eTag W) (Data.updateLocalFsLocation (db W) x p).1
          (files W) (config W)) r) = StatusOK ∧
  raw_body
    (body (apiReturnBlobData other
             (mkWorld (eTag W) (Data.updateLocalFsLocation (db W) x p).1
                (files W) (config W)) r)) = Some byte.
Proof.
  intros Hplain Hok Hnone Hp Hfile Hvar.
  apply (apiReturnBlobData_streams other _ r x p byte); try done.
  - simpl. by apply fault_updateLocalFsLocation.
  - simpl. rewrite lookup_updateLocalFsLocation, Hnone by done. done.
  - unfold ReadFile. simpl. rewrite bool_decide_eq_false_2 by done.
    by rewrite Hfile.
Qed.

End BlobExtras.

(** * The further properties at work on the scenario *)

Section Witnesses.

Import Sql Data Spec DataRow Api Distributor.

Lemma scenario_primary_key :
  primary_key (metadata_runtime_entity_metadata Scenario.store).
Proof.
  split.
  - repeat constructor; by eexists.
  - apply (bool_decide_unpack _). vm_compute. exact I.
Defined.

Lemma scenario_A_in_store :
  Scenario.config_A ∈ metadata_runtime_entity_metadata Scenario.store.
Proof. apply list_elem_of_here. Defined.

(** Configuration A of the scenario, asked for by its id. *)
Lemma getConfigById_found_witness :
  fault Scenario.store = None ∧
  primary_key (metadata_runtime_entity_metadata Scenario.store) ∧
  Scenario.config_A ∈ metadata_runtime_entity_metadata Scenario.store ∧
  Data.id Scenario.config_A = Some "A" ∧
  getConfigById Scenario.store "A"
    = (Some (configuration_of Scenario.config_A), None) ∧
  ID (configuration_of Scenario.config_A) = "A".
Proof.
  split; [reflexivity|]. split; [exact scenario_primary_key|].
  split; [exact scenario_A_in_store|]. split; [reflexivity|].
  exact (getConfigById_found Scenario.store Scenario.config_A "A" eq_refl
           scenario_primary_key scenario_A_in_store eq_refl).
Defined.

(** An id the scenario's table does not hold. *)
Lemma getConfigById_missing_witness :
  fault Scenario.store = None ∧
  (Some "Z" ∉ Data.id <$> metadata_runtime_entity_metadata Scenario.store) ∧
  getConfigById Scenario.store "Z" = (None, Some ErrNoRows).
Proof.
  assert (Some "Z" ∉ Data.id <$> metadata_runtime_entity_metadata Scenario.store)
    as Hout.
  { apply (bool_decide_unpack _). vm_compute. exact I. }
  split; [reflexivity|]. split; [exact Hout|].
  exact (getConfigById_missing Scenario.store "Z" eq_refl Hout).
Defined.

Lemma scenario_A_ready typeFilter :
  typeFilter = "" ∨ typeFilter = "ORGANIZATION" →
  configuration_of Scenario.config_A
    ∈ (getReadyDeployments Scenario.store typeFilter).1.
Proof. intros [-> | ->]; vm_compute; apply list_elem_of_here. Defined.

(** The ready configuration of the scenario, fetched again by its id. *)
Lemma ready_configuration_is_fetchable_witness :
  fault Scenario.store = None ∧
  primary_key (metadata_runtime_entity_metadata Scenario.store) ∧
  configuration_of Scenario.config_A ∈ (getReadyDeployments Scenario.store "").1 ∧
  getConfigById Scenario.store (ID (configuration_of Scenario.config_A))
    = (Some (configuration_of Scenario.config_A), None).
Proof.
  split; [reflexivity|]. split; [exact scenario_primary_key|].
  split; [exact (scenario_A_ready "" (or_introl eq_refl))|].
  exact (ready_configuration_is_fetchable Scenario.store ""
           (configuration_of Scenario.config_A) eq_refl scenario_primary_key
           (scenario_A_ready "" (or_introl eq_refl))).
Defined.

(** Configuration A in the scenario's store, filtered by its type. *)
Lemma filtered_are_the_unfiltered_of_type_witness :
  fault Scenario.store = None ∧ "ORGANIZATION" ≠ "" ∧
  (configuration_of Scenario.config_A
     ∈ (getReadyDeployments Scenario.store "ORGANIZATION").1 ↔
   configuration_of Scenario.config_A ∈ (getReadyDeployments Scenario.store "").1 ∧
   Data.Type' (configuration_of Scenario.config_A) = "ORGANIZATION").
Proof.
  assert ("ORGANIZATION" ≠ "") as Hne by discriminate.
  split; [reflexivity|]. split; [exact Hne|].
  exact (filtered_are_the_unfiltered_of_type Scenario.store "ORGANIZATION"
           (configuration_of Scenario.config_A) eq_refl Hne).
Defined.

(** The scenario's store. *)
Lemma ready_configurations_are_distinct_witness :
  fault Scenario.store = None ∧
  primary_key (metadata_runtime_entity_metadata Scenario.store) ∧
  NoDup (getReadyDeployments Scenario.store "").1.
Proof.
  split; [reflexivity|]. split; [exact scenario_primary_key|].
  exact (ready_configurations_are_distinct Scenario.store "" eq_refl
           scenario_primary_key).
Defined.

(** Configuration A of the scenario, whose bean blob is b1. *)
Lemma ready_iff_no_blob_unready_witness :
  fault Scenario.store = None ∧
  primary_key (metadata_runtime_entity_metadata Scenario.store) ∧
  Scenario.config_A ∈ metadata_runtime_entity_metadata Scenario.store ∧
  bean_blob_id Scenario.config_A = Some "b1" ∧ "b1" ≠ "" ∧
  (configuration_of Scenario.config_A ∈ (getReadyDeployments Scenario.store "").1 ↔
   ∀ y, y ∈ (getUnreadyBlobs Scenario.store).1 →
        bean_blob_id Scenario.config_A ≠ Some y ∧
        resource_blob_id Scenario.config_A ≠ Some y).
Proof.
  assert ("b1" ≠ "") as Hne by discriminate.
  split; [reflexivity|]. split; [exact scenario_primary_key|].
  split; [exact scenario_A_in_store|]. split; [reflexivity|].
  split; [exact Hne|].
  exact (ready_iff_no_blob_unready Scenario.store Scenario.config_A "b1" eq_refl
           scenario_primary_key scenario_A_in_store eq_refl Hne).
Defined.

(** Recording b2 in the scenario's store. *)
Lemma recording_removes_blob_from_unready_witness :
  fault Scenario.store = None ∧
  list_to_set
    (getUnreadyBlobs (updateLocalFsLocation Scenario.store "b2" "/tmp/b2").1).1
    =@{gset string} list_to_set (getUnreadyBlobs Scenario.store).1 ∖ {["b2"]} ∧
  metadata_runtime_entity_metadata
    (updateLocalFsLocation Scenario.store "b2" "/tmp/b2").1
    = metadata_runtime_entity_metadata Scenario.store.
Proof.
  split; [reflexivity|].
  exact (recording_removes_blob_from_unready Scenario.store "b2" "/tmp/b2"
           eq_refl).
Defined.

(** Configuration A stays ready when b2 is recorded. *)
Lemma recording_keeps_ready_witness :
  fault Scenario.store = None ∧
  primary_key (metadata_runtime_entity_metadata Scenario.store) ∧
  configuration_of Scenario.config_A ∈ (getReadyDeployments Scenario.store "").1 ∧
  configuration_of Scenario.config_A
    ∈ (getReadyDeployments
         (updateLocalFsLocation Scenario.store "b2" "/tmp/b2").1 "").1.
Proof.
  split; [reflexivity|]. split; [exact scenario_primary_key|].
  split; [exact (scenario_A_ready "" (or_introl eq_refl))|].
  exact (recording_keeps_ready Scenario.store "b2" "/tmp/b2" ""
           (configuration_of Scenario.config_A) eq_refl scenario_primary_key
           (scenario_A_ready "" (or_introl eq_refl))).
Defined.

(** The path of b1 after an attempt to record it elsewhere and a record of
    b2. *)
Lemma recorded_path_never_changes_witness :
  apid_blob_available Scenario.store !! "b1" = Some "/tmp/tmpapid/b1" ∧
  apid_blob_available
    (record_all Scenario.store [("b1", "/elsewhere"); ("b2", "/tmp/b2")]).1
    !! "b1" = Some "/tmp/tmpapid/b1" ∧
  metadata_runtime_entity_metadata
    (record_all Scenario.store [("b1", "/elsewhere"); ("b2", "/tmp/b2")]).1
    = metadata_runtime_entity_metadata Scenario.store.
Proof.
  assert (apid_blob_available Scenario.store !! "b1" = Some "/tmp/tmpapid/b1")
    as Hb1 by (by vm_compute).
  split; [exact Hb1|].
  exact (recorded_path_never_changes Scenario.store
           [("b1", "/elsewhere"); ("b2", "/tmp/b2")] "b1" "/tmp/tmpapid/b1" Hb1).
Defined.

(** Recording b2 in the scenario's store and reading it back. *)
Lemma lookup_after_record_witness :
  plain "b2" = true ∧ fault Scenario.store = None ∧
  Data.getLocalFSLocation Scenario.engine
    (updateLocalFsLocation Scenario.store "b2" "/tmp/b2").1 "b2"
  = (default "/tmp/b2" (apid_blob_available Scenario.store !! "b2"), None).
Proof.
  split; [reflexivity|]. split; [reflexivity|].
  exact (lookup_after_record Scenario.engine Scenario.store "b2" "/tmp/b2"
           eq_refl eq_refl).
Defined.

(** The id of b1 with a quote behind it. *)
Lemma lookup_of_trailing_quote_fails_witness :
  plain "b1" = true ∧ fault Scenario.store = None ∧
  Data.getLocalFSLocation Scenario.engine Scenario.store ("b1" +:+ "'")
  = ("", Some "unrecognized token").
Proof.
  split; [reflexivity|]. split; [reflexivity|].
  exact (lookup_of_trailing_quote_fails Scenario.engine Scenario.store "b1"
           eq_refl eq_refl).
Defined.

(** The last settle before the wrap and the settle that wraps. *)
Lemma token_not_reused_within_2_64_witness :
  (minInt64 ≤ 0 ≤ maxInt64)%Z ∧ (2 ^ 63 - 1 < 2 ^ 63)%N ∧
  (2 ^ 63 - (2 ^ 63 - 1) < 2 ^ 64)%N ∧
  eTag_after (2 ^ 63 - 1) 0 ≠ eTag_after (2 ^ 63) 0 ∧
  FormatInt (eTag_after (2 ^ 63 - 1) 0) ≠ FormatInt (eTag_after (2 ^ 63) 0) ∧
  (minInt64 ≤ eTag_after (2 ^ 63) 0 ≤ maxInt64)%Z.
Proof.
  assert (minInt64 ≤ 0 ≤ maxInt64)%Z as He by (by vm_compute).
  assert (2 ^ 63 - 1 < 2 ^ 63)%N as Hjk by (by vm_compute).
  assert (2 ^ 63 - (2 ^ 63 - 1) < 2 ^ 64)%N as Hclose by (by vm_compute).
  split; [exact He|]. split; [exact Hjk|]. split; [exact Hclose|].
  exact (token_not_reused_within_2_64 (2 ^ 63 - 1) (2 ^ 63) 0 He Hjk Hclose).
Defined.

(** A fresh process asked without [If-None-Match] and with [block=5]. *)
Lemma other_token_is_answered_at_once_witness :
  (Get "block" (query (Scenario.poll_request "5" "")) = "" ∨
   (Atoi (Get "block" (query (Scenario.poll_request "5" "")))).2 = None) ∧
  (Get "If-None-Match" (headers (Scenario.poll_request "5" "")) = "" ∨
   Get "If-None-Match" (headers (Scenario.poll_request "5" ""))
     ≠ getETag Scenario.world) ∧
  apiGetCurrentDeployments Scenario.ready_query Scenario.world
    (Scenario.poll_request "5" "") 7 timed_out
  = (sendReadyDeployments Scenario.ready_query Scenario.world newResponseWriter,
     []).
Proof.
  assert (Get "block" (query (Scenario.poll_request "5" "")) = "" ∨
          (Atoi (Get "block" (query (Scenario.poll_request "5" "")))).2 = None)
    as Hb by (right; reflexivity).
  assert (Get "If-None-Match" (headers (Scenario.poll_request "5" "")) = "" ∨
          Get "If-None-Match" (headers (Scenario.poll_request "5" ""))
            ≠ getETag Scenario.world) as Hinm by (left; reflexivity).
  split; [exact Hb|]. split; [exact Hinm|].
  exact (other_token_is_answered_at_once Scenario.ready_query Scenario.world
           (Scenario.poll_request "5" "") 7 timed_out Hb Hinm).
Defined.

Lemma seven_not_subscribed : (7 : chan) ∉ ({[1; 2]} : gset chan).
Proof. apply (bool_decide_unpack _). vm_compute. exact I. Defined.

(** A fresh process asked with its own token and [block=5], timing out
    while two other waiters are registered. *)
Lemma timed_out_request_leaves_no_subscriber_witness :
  ((7 : chan) ∉ ({[1; 2]} : gset chan)) ∧
  distributeEvents {[1; 2]}
    (arrives <$> (apiGetCurrentDeployments Scenario.ready_query Scenario.world
                    (Scenario.poll_request "5" "0") 7 timed_out).2)
  = ([], Some {[1; 2]}).
Proof.
  split; [exact seven_not_subscribed|].
  exact (timed_out_request_leaves_no_subscriber Scenario.ready_query
           Scenario.world (Scenario.poll_request "5" "0") 7 {[1; 2]}
           seven_not_subscribed).
Defined.

Lemma seven_subscribed : (7 : chan) ∈ ({[7]} : gset chan).
Proof. by apply elem_of_singleton. Defined.

(** A fresh process asked with its own token and [block=5], woken by the
    first settle. *)
Lemma woken_request_gets_new_token_witness :
  (minInt64 ≤ eTag Scenario.world ≤ maxInt64)%Z ∧
  Get "If-None-Match" (headers (Scenario.poll_request "5" "0"))
    = getETag Scenario.world ∧
  Get "block" (query (Scenario.poll_request "5" "0")) ≠ "" ∧
  Atoi (Get "block" (query (Scenario.poll_request "5" "0"))) = (5%Z, None) ∧
  (0 < 5)%Z ∧ (7 : chan) ∈ ({[7]} : gset chan) ∧
  ∃ result,
    (7, result) ∈ (deliver Scenario.unready_query Scenario.world {[7]}).2 ∧
    (apiGetCurrentDeployments Scenario.ready_query Scenario.world
       (Scenario.poll_request "5" "0") 7 (received result)).2
      = [addSubscriber_send 7] ∧
    header (apiGetCurrentDeployments Scenario.ready_query Scenario.world
              (Scenario.poll_request "5" "0") 7 (received result)).1
      !! "ETag" ≠ Some (Get "If-None-Match" (headers (Scenario.poll_request "5" "0"))) ∧
    match (Scenario.unready_query (db Scenario.world)).2 with
    | None =>
        StatusCode (apiGetCurrentDeployments Scenario.ready_query Scenario.world
                      (Scenario.poll_request "5" "0") 7 (received result)).1
          = StatusOK ∧
        header (apiGetCurrentDeployments Scenario.ready_query Scenario.world
                  (Scenario.poll_request "5" "0") 7 (received result)).1
          !! "ETag"
        = Some (getETag (deliver Scenario.unready_query Scenario.world {[7]}).1)
    | Some _ =>
        StatusCode (apiGetCurrentDeployments Scenario.ready_query Scenario.world
                      (Scenario.poll_request "5" "0") 7 (received result)).1
          = StatusInternalServerError
    end.
Proof.
  assert (minInt64 ≤ eTag Scenario.world ≤ maxInt64)%Z as He by (by vm_compute).
  assert (Get "block" (query (Scenario.poll_request "5" "0")) ≠ "") as Hb
    by discriminate.
  assert (0 < 5)%Z as Hpos by lia.
  split; [exact He|]. split; [reflexivity|]. split; [exact Hb|].
  split; [reflexivity|]. split; [exact Hpos|]. split; [exact seven_subscribed|].
  exact (woken_request_gets_new_token Scenario.ready_query Scenario.unready_query
           Scenario.world (Scenario.poll_request "5" "0") 7 {[7]} 5 He eq_refl Hb
           eq_refl Hpos seven_subscribed).
Defined.

Lemma two_settles_registered :
  NoDup (registered Scenario.two_settles) ∧
  ∀ c, c ∈ registered Scenario.two_settles → c ∉ (∅ : gset chan).
Proof.
  split.
  - apply (bool_decide_unpack _). vm_compute. exact I.
  - intros c _. apply not_elem_of_empty.
Defined.

(** Two waiters, each registered before its own settle. *)
Lemma no_waiter_is_delivered_twice_witness :
  NoDup (registered Scenario.two_settles) ∧
  (∀ c, c ∈ registered Scenario.two_settles → c ∉ (∅ : gset chan)) ∧
  0 ≠ 1 ∧
  (distributeEvents ∅ Scenario.two_settles).1 !! 0 = Some ({[1]} ∪ ∅) ∧
  (distributeEvents ∅ Scenario.two_settles).1 !! 1 = Some ({[2]} ∪ ∅) ∧
  ({[1]} ∪ ∅ : gset chan) ## ({[2]} ∪ ∅ : gset chan).
Proof.
  assert (0 ≠ 1) as Hij by discriminate.
  split; [exact (proj1 two_settles_registered)|].
  split; [exact (proj2 two_settles_registered)|]. split; [exact Hij|].
  split; [reflexivity|]. split; [reflexivity|].
  exact (no_waiter_is_delivered_twice ∅ Scenario.two_settles 0 1
           ({[1]} ∪ ∅) ({[2]} ∪ ∅) (proj1 two_settles_registered)
           (proj2 two_settles_registered) Hij eq_refl eq_refl).
Defined.

Lemma stretch_keeps_7 :
  Forall (λ ev, ev ≠ removeSubscriber_recv (Some 7) ∧
                ∀ ok, ev ≠ deliverDeployments_recv ok) Scenario.stretch.
Proof. repeat constructor; try discriminate; intros ok; discriminate. Defined.

Lemma stretch_leaves_7_out :
  Forall (λ ev, ev ≠ addSubscriber_recv 7 ∧
                ∀ ok, ev ≠ deliverDeployments_recv ok) Scenario.stretch.
Proof. repeat constructor; try discriminate; intros ok; discriminate. Defined.

(** Waiter 7 registering after waiter 1; waiter 2 comes and waiter 1 goes
    before the settle. *)
Lemma registered_waiter_is_delivered_witness :
  distributeEvents ∅ [addSubscriber_recv 1] = ([], Some ({[1]} ∪ ∅)) ∧
  Forall (λ ev, ev ≠ removeSubscriber_recv (Some 7) ∧
                ∀ ok, ev ≠ deliverDeployments_recv ok) Scenario.stretch ∧
  ∃ s,
    distributeEvents ∅
      ([addSubscriber_recv 1] ++ addSubscriber_recv 7 :: Scenario.stretch
         ++ [deliverDeployments_recv true])
    = ([] ++ [s], Some ∅) ∧ 7 ∈ s.
Proof.
  split; [reflexivity|]. split; [exact stretch_keeps_7|].
  exact (registered_waiter_is_delivered ∅ [addSubscriber_recv 1] Scenario.stretch
           7 [] ({[1]} ∪ ∅) eq_refl stretch_keeps_7).
Defined.

(** Waiter 7 unregistering from a loop that holds it, before the settle. *)
Lemma removed_waiter_is_not_delivered_witness :
  distributeEvents {[7]} [addSubscriber_recv 1] = ([], Some ({[1]} ∪ {[7]})) ∧
  Forall (λ ev, ev ≠ addSubscriber_recv 7 ∧
                ∀ ok, ev ≠ deliverDeployments_recv ok) Scenario.stretch ∧
  ∃ s,
    distributeEvents {[7]}
      ([addSubscriber_recv 1] ++ removeSubscriber_recv (Some 7)
         :: Scenario.stretch ++ [deliverDeployments_recv true])
    = ([] ++ [s], Some ∅) ∧ 7 ∉ s.
Proof.
  split; [reflexivity|]. split; [exact stretch_leaves_7_out|].
  exact (removed_waiter_is_not_delivered {[7]} [addSubscriber_recv 1]
           Scenario.stretch 7 [] ({[1]} ∪ {[7]}) eq_refl stretch_leaves_7_out).
Defined.

(** Blob b2 recorded under the path of its file, then requested. *)
Lemma recorded_blob_is_served_witness :
  plain "b2" = true ∧ Data.fault (db Scenario.world_b2) = None ∧
  Data.apid_blob_available (db Scenario.world_b2) !! "b2" = None ∧
  "/tmp/tmpapid/b2" ≠ "" ∧
  files Scenario.world_b2 !! "/tmp/tmpapid/b2" = Some "second bundle" ∧
  vars (Scenario.blob_request "b2") !! "blobId" = Some "b2" ∧
  StatusCode
    (apiReturnBlobData Scenario.engine
       (mkWorld (eTag Scenario.world_b2)
          (Data.updateLocalFsLocation (db Scenario.world_b2) "b2"
             "/tmp/tmpapid/b2").1
          (files Scenario.world_b2) (config Scenario.world_b2))
       (Scenario.blob_request "b2")) = StatusOK ∧
  raw_body
    (body (apiReturnBlobData Scenario.engine
             (mkWorld (eTag Scenario.world_b2)
                (Data.updateLocalFsLocation (db Scenario.world_b2) "b2"
                   "/tmp/tmpapid/b2").1
                (files Scenario.world_b2) (config Scenario.world_b2))
             (Scenario.blob_request "b2"))) = Some "second bundle".
Proof.
  assert (Data.apid_blob_available (db Scenario.world_b2) !! "b2" = None)
    as Hnone by (by vm_compute).
  assert ("/tmp/tmpapid/b2" ≠ "") as Hp by discriminate.
  assert (files Scenario.world_b2 !! "/tmp/tmpapid/b2" = Some "second bundle")
    as Hfile by (by vm_compute).
  assert (vars (Scenario.blob_request "b2") !! "blobId" = Some "b2")
    as Hvar by (by vm_compute).
  split; [reflexivity|]. split; [reflexivity|]. split; [exact Hnone|].
  split; [exact Hp|]. split; [exact Hfile|]. split; [exact Hvar|].
  exact (recorded_blob_is_served Scenario.engine Scenario.world_b2
           (Scenario.blob_request "b2") "b2" "/tmp/tmpapid/b2" "second bundle"
           eq_refl eq_refl Hnone Hp Hfile Hvar).
Defined.

End Witnesses.
